(** * The MQTT gateway (app.js): device registry, topic access control,
      and the router of published payloads.

    The gateway is a Node.js plugin.  Its state is the module-level variables
    of app.js ([authorizedDevices], [server], [port], [qos]); its behaviour is
    the set of event handlers it registers on the platform and on the broker.
    Each handler is embedded as a function from the current state and the
    event's arguments to the new state, the list of calls made to the platform
    and the broker (in order), and how the handler completed.

    The JavaScript runtime values, [JSON.parse], [parseInt] and the lodash
    helpers the handlers call are embedded first. *)

From stdpp Require Import gmap strings list fin_maps pretty.
From Stdlib Require Import ZArith Ascii String.

Local Open Scope string_scope.
Local Open Scope Z_scope.

(** ** JavaScript values *)

Module JS.

(** A number is kept as an exact decimal [m * 10^e], or is [NaN] or an
    infinity.  The gateway never computes with numbers: it tests them with
    [isEmpty], compares one with [0] and passes them on.  [parseInt] rounds
    its result to binary64; the numbers of a JSON text are kept as written. *)
Inductive number : Type :=
  | NaN
  | Inf (negative : bool)
  | Dec (m e : Z).

Definition Int (z : Z) : number := Dec z 0.

(** The values the platform and [JSON.parse] hand to the gateway.  An object
    is the list of its own enumerable properties in the order they are
    enumerated: the array indices in ascending order, then the other keys in
    the order of their creation. *)
#[warnings="-register-all"]
Inductive value : Type :=
  | VUndefined
  | VNull
  | VBool (b : bool)
  | VNum (n : number)
  | VStr (s : string)
  | VArr (elems : list value)
  | VObj (props : list (string * value)).

(** Strings are sequences of bytes; the double quote is written by its code. *)
Definition dquote : ascii := "034"%char.

Definition quoted (s : string) : string :=
  String dquote (s ++ String dquote EmptyString).

(** [n === 0] on a number ([-0 === 0] holds too). *)
Definition is_zero (n : number) : bool :=
  match n with
  | NaN | Inf _ => false
  | Dec m _ => m =? 0
  end.

(** [v === 0]. *)
Definition strict_eq_zero (v : value) : bool :=
  match v with
  | VNum n => is_zero n
  | _ => false
  end.

(** [v == null]: [null] or [undefined]. *)
Definition nullish (v : value) : bool :=
  match v with
  | VUndefined | VNull => true
  | _ => false
  end.

(** Own-property lookup, first binding of the key. *)
Fixpoint assoc (k : string) (props : list (string * value)) : option value :=
  match props with
  | [] => None
  | (k', v) :: rest => if String.eqb k k' then Some v else assoc k rest
  end.

(** [v.k] for a [v] that is not [null] or [undefined] and a name [k] that no
    built-in prototype defines ([_id], [target], [message], ...): the own
    property of an object, [undefined] otherwise.  On [null] and [undefined]
    the JavaScript expression throws a TypeError; the callers that can reach
    that case test [nullish] first.  On those two the function answers
    [undefined], which is what lodash's [property] iteratee returns there. *)
Definition member (v : value) (k : string) : value :=
  match v with
  | VObj props => default VUndefined (assoc k props)
  | _ => VUndefined
  end.

(** *** ToString *)

(** The digits of a positive integer without the zeros at their end, and
    the exponent raised by the number of zeros dropped. *)
Fixpoint strip_zeros (fuel : nat) (m e : Z) : Z * Z :=
  match fuel with
  | O => (m, e)
  | S fuel' =>
      if m mod 10 =? 0 then strip_zeros fuel' (m / 10) (e + 1)
      else (m, e)
  end.

Fixpoint zeros (n : nat) : string :=
  match n with
  | O => EmptyString
  | S n' => String "0" (zeros n')
  end.

(** Number to string, as Number::toString lays the digits out: [s] is the
    digits without trailing zeros, [k] their count and [n] the position of
    the decimal point; the exponent notation starts at [10^21] and below
    [10^-6].  The digits are those of the decimal kept, which are the ones
    JavaScript shows when the decimal has at most 15 significant digits and
    lies in the range of binary64. *)
Definition number_to_string (n : number) : string :=
  match n with
  | NaN => "NaN"
  | Inf false => "Infinity"
  | Inf true => "-Infinity"
  | Dec m e =>
      if m =? 0 then "0"
      else
        let '(s, e') :=
          strip_zeros (S (Z.to_nat (Z.log2 (Z.abs m)))) (Z.abs m) e in
        let digits := pretty s in
        let k := Z.of_nat (String.length digits) in
        let n := k + e' in
        (if m <? 0 then "-" else EmptyString)
          ++ (if (k <=? n) && (n <=? 21) then digits ++ zeros (Z.to_nat (n - k))
              else if (0 <? n) && (n <=? 21) then
                substring 0 (Z.to_nat n) digits ++ "."
                  ++ substring (Z.to_nat n) (Z.to_nat (k - n)) digits
              else if (-6 <? n) && (n <=? 0) then
                "0." ++ zeros (Z.to_nat (- n)) ++ digits
              else
                match digits with
                | String d rest =>
                    String d
                      ((match rest with
                        | EmptyString => EmptyString
                        | String _ _ => "." ++ rest
                        end)
                         ++ "e" ++ (if n - 1 <? 0 then "-" else "+")
                         ++ pretty (Z.abs (n - 1)))
                | EmptyString => EmptyString
                end)
  end.

(** The conversion of a value to a string: [String(v)], the property key of
    [obj[v]], the text of [v] in a template literal.  [None] is the TypeError
    it throws.  An object is converted by its [toString] member, then by its
    [valueOf]; an own [toString] of a value handed over as data is not
    callable and is skipped, and [valueOf], own or inherited, gives no
    primitive, so the conversion of such an object throws.  Every other
    object inherits the [toString] that answers [[object Object]].  An array
    joins the conversions of its elements, [null] and [undefined] giving the
    empty string. *)
Fixpoint ToString (v : value) : option string :=
  match v with
  | VUndefined => Some "undefined"
  | VNull => Some "null"
  | VBool true => Some "true"
  | VBool false => Some "false"
  | VNum n => Some (number_to_string n)
  | VStr s => Some s
  | VArr elems =>
      (fix join (l : list value) : option string :=
         match l with
         | [] => Some EmptyString
         | x :: rest =>
             match (if nullish x then Some EmptyString else ToString x), join rest with
             | Some t, Some u =>
                 Some (match rest with
                       | [] => t
                       | _ :: _ => t ++ "," ++ u
                       end)
             | _, _ => None
             end
         end) elems
  | VObj props =>
      match assoc "toString" props with
      | Some _ => None
      | None => Some "[object Object]"
      end
  end.

(** The conversion where it cannot throw: the text of a string, a number, a
    boolean, and of the strings and buffers the broker hands over.  Where
    [ToString] throws, the text every plain object has stands in. *)
Definition to_string (v : value) : string :=
  default "[object Object]" (ToString v).

(** *** parseInt *)

Definition code (c : ascii) : Z := Z.of_nat (nat_of_ascii c).

Definition is_digit (c : ascii) : bool := (48 <=? code c) && (code c <=? 57).

Definition digit_val (c : ascii) : Z := code c - 48.

(** Value of a hexadecimal digit. *)
Definition hex_val (c : ascii) : option Z :=
  let n := code c in
  if (48 <=? n) && (n <=? 57) then Some (n - 48)
  else if (65 <=? n) && (n <=? 70) then Some (n - 55)
  else if (97 <=? n) && (n <=? 102) then Some (n - 87)
  else None.

(** White space that [parseInt] and [trim] skip.  A string is kept as the
    bytes of its UTF-8 form, so a white space character is one, two or three
    bytes: tab, line feed, vertical tab, form feed, carriage return and
    space; the no-break space U+00A0; and U+1680, U+2000 to U+200A, U+2028,
    U+2029, U+202F, U+205F, U+3000 and U+FEFF. *)
Definition is_space (c : ascii) : bool :=
  let n := code c in ((9 <=? n) && (n <=? 13)) || (n =? 32).

Definition is_space2 (a b : ascii) : bool :=
  (code a =? 194) && (code b =? 160).

Definition is_space3 (a b c : ascii) : bool :=
  let x := code a in
  let y := code b in
  let z := code c in
  ((x =? 225) && (y =? 154) && (z =? 128))
  || ((x =? 226) && (y =? 128)
      && (((128 <=? z) && (z <=? 138)) || (z =? 168) || (z =? 169) || (z =? 175)))
  || ((x =? 226) && (y =? 129) && (z =? 159))
  || ((x =? 227) && (y =? 128) && (z =? 128))
  || ((x =? 239) && (y =? 187) && (z =? 191)).

Fixpoint skip_space (s : string) : string :=
  match s with
  | String a r =>
      if is_space a then skip_space r
      else
        match r with
        | String b r1 =>
            if is_space2 a b then skip_space r1
            else
              match r1 with
              | String c r2 => if is_space3 a b c then skip_space r2 else s
              | EmptyString => s
              end
        | EmptyString => s
        end
  | EmptyString => s
  end.

(** The string is white space from end to end. *)
Fixpoint all_space (s : string) : bool :=
  match s with
  | String a r =>
      if is_space a then all_space r
      else
        match r with
        | String b r1 =>
            if is_space2 a b then all_space r1
            else
              match r1 with
              | String c r2 => is_space3 a b c && all_space r2
              | EmptyString => false
              end
        | EmptyString => false
        end
  | EmptyString => true
  end.

(** The longest run of decimal digits at the head of [s]: its value from
    [acc], how many digits, and what follows. *)
Fixpoint read_digits (acc : Z) (count : nat) (s : string) : Z * nat * string :=
  match s with
  | String c r =>
      if is_digit c then read_digits (10 * acc + digit_val c) (S count) r
      else (acc, count, s)
  | EmptyString => (acc, count, s)
  end.

Fixpoint read_hex (acc : Z) (count : nat) (s : string) : Z * nat :=
  match s with
  | String c r =>
      match hex_val c with
      | Some d => read_hex (16 * acc + d) (S count) r
      | None => (acc, count)
      end
  | EmptyString => (acc, count)
  end.

(** The binary64 number nearest to a non-negative integer, ties going to the
    even significand; [None] when it is beyond the largest finite one. *)
Definition round_binary64 (a : Z) : option Z :=
  if a <? 2 ^ 53 then Some a
  else
    let e := Z.log2 a - 52 in
    let q := a / 2 ^ e in
    let r := a mod 2 ^ e in
    let half := 2 ^ (e - 1) in
    let q' :=
      if r <? half then q
      else if half <? r then q + 1
      else if Z.even q then q else q + 1 in
    if q' * 2 ^ e <? 2 ^ 1024 then Some (q' * 2 ^ e) else None.

(** The number [parseInt] returns for the digits it read. *)
Definition integer_number (neg : bool) (a : Z) : number :=
  match round_binary64 a with
  | Some v => Int (if neg then - v else v)
  | None => Inf neg
  end.

(** [parseInt(s)] with no radix: leading white space, a sign, a [0x] prefix,
    then the longest run of digits, rounded to binary64; [NaN] when there is
    none. *)
Definition parseInt_string (s : string) : number :=
  let s0 := skip_space s in
  let '(neg, s1) :=
    match s0 with
    | String c r =>
        if Ascii.eqb c "-" then (true, r)
        else if Ascii.eqb c "+" then (false, r)
        else (false, s0)
    | EmptyString => (false, s0)
    end in
  let signed (z : Z) := integer_number neg z in
  match s1 with
  | String c0 (String c1 r) =>
      if Ascii.eqb c0 "0" && (Ascii.eqb c1 "x" || Ascii.eqb c1 "X") then
        match read_hex 0 0 r with
        | (_, O) => NaN
        | (z, _) => signed z
        end
      else
        match read_digits 0 0 s1 with
        | (_, O, _) => NaN
        | (z, _, _) => signed z
        end
  | _ =>
      match read_digits 0 0 s1 with
      | (_, O, _) => NaN
      | (z, _, _) => signed z
      end
  end.

(** [parseInt(v)]: the argument is converted to a string first; [None] is
    the TypeError of that conversion. *)
Definition parseInt (v : value) : option number :=
  match ToString v with
  | Some s => Some (parseInt_string s)
  | None => None
  end.

(** [s.split(sep)] for a one-character separator. *)
Fixpoint split (sep : ascii) (s : string) : list string :=
  match s with
  | EmptyString => [EmptyString]
  | String c r =>
      if Ascii.eqb c sep then EmptyString :: split sep r
      else
        match split sep r with
        | h :: t => String c h :: t
        | [] => [String c EmptyString]
        end
  end.

(** *** JSON.parse *)

(** Outcome of a parsing step: a result and the input left, a syntax error,
    or the recursion budget spent. *)
Inductive presult (A : Type) : Type :=
  | Ok (a : A) (rest : string)
  | Bad
  | Spent.

Arguments Ok {A} a rest.
Arguments Bad {A}.
Arguments Spent {A}.

(** JSON white space: tab, line feed, carriage return, space. *)
Definition is_ws (c : ascii) : bool :=
  let n := code c in (n =? 9) || (n =? 10) || (n =? 13) || (n =? 32).

Fixpoint skip_ws (s : string) : string :=
  match s with
  | String c r => if is_ws c then skip_ws r else s
  | EmptyString => s
  end.

Definition byte (z : Z) : ascii := ascii_of_nat (Z.to_nat z).

(** UTF-8 form of a code unit of a [\u] escape (a surrogate is encoded on
    its own, as three bytes). *)
Definition utf8 (cp : Z) : string :=
  if cp <? 128 then String (byte cp) EmptyString
  else if cp <? 2048 then
    String (byte (192 + cp / 64)) (String (byte (128 + cp mod 64)) EmptyString)
  else
    String (byte (224 + cp / 4096))
      (String (byte (128 + (cp / 64) mod 64))
         (String (byte (128 + cp mod 64)) EmptyString)).

Definition hex4 (a b c d : ascii) : option Z :=
  match hex_val a, hex_val b, hex_val c, hex_val d with
  | Some x, Some y, Some z, Some w => Some (((x * 16 + y) * 16 + z) * 16 + w)
  | _, _, _, _ => None
  end.

(** The single-character escapes of a JSON string. *)
Definition escape (c : ascii) : option ascii :=
  if Ascii.eqb c dquote then Some dquote
  else if Ascii.eqb c "\" then Some "\"%char
  else if Ascii.eqb c "/" then Some "/"%char
  else if Ascii.eqb c "b" then Some "008"%char
  else if Ascii.eqb c "f" then Some "012"%char
  else if Ascii.eqb c "n" then Some "010"%char
  else if Ascii.eqb c "r" then Some "013"%char
  else if Ascii.eqb c "t" then Some "009"%char
  else None.

(** The characters of a JSON string after its opening quote, up to the
    closing one. *)
Fixpoint parse_string (s : string) : option (string * string) :=
  match s with
  | EmptyString => None
  | String c r =>
      if Ascii.eqb c dquote then Some (EmptyString, r)
      else if Ascii.eqb c "\" then
        match r with
        | String e r1 =>
            if Ascii.eqb e "u" then
              match r1 with
              | String h1 (String h2 (String h3 (String h4 r2))) =>
                  match hex4 h1 h2 h3 h4, parse_string r2 with
                  | Some cp, Some (t, rest) => Some (utf8 cp ++ t, rest)
                  | _, _ => None
                  end
              | _ => None
              end
            else
              match escape e, parse_string r1 with
              | Some x, Some (t, rest) => Some (String x t, rest)
              | _, _ => None
              end
        | EmptyString => None
        end
      else if code c <? 32 then None
      else
        match parse_string r with
        | Some (t, rest) => Some (String c t, rest)
        | None => None
        end
  end.

(** The exponent part of a JSON number, [0] when there is none. *)
Definition parse_exponent (s : string) : option (Z * string) :=
  match s with
  | String c r =>
      if Ascii.eqb c "e" || Ascii.eqb c "E" then
        let '(neg, r1) :=
          match r with
          | String g r' =>
              if Ascii.eqb g "-" then (true, r')
              else if Ascii.eqb g "+" then (false, r')
              else (false, r)
          | EmptyString => (false, r)
          end in
        match read_digits 0 0 r1 with
        | (_, O, _) => None
        | (x, _, rest) => Some (if neg then - x else x, rest)
        end
      else Some (0, s)
  | EmptyString => Some (0, s)
  end.

(** The fraction part of a JSON number: its digits as an integer and how many
    there are. *)
Definition parse_fraction (s : string) : option (Z * nat * string) :=
  match s with
  | String c r =>
      if Ascii.eqb c "." then
        match read_digits 0 0 r with
        | (_, O, _) => None
        | res => Some res
        end
      else Some (0, O, s)
  | EmptyString => Some (0, O, s)
  end.

(** The digits of a JSON number after its sign: an integer part with no
    leading zero, an optional fraction, an optional exponent; the result is
    the mantissa and the decimal exponent. *)
Definition parse_magnitude (s : string) : option (Z * Z * string) :=
  match s with
  | String c r =>
      if is_digit c then
        let '(ip, _, s2) :=
          if Ascii.eqb c "0" then (0, 1%nat, r) else read_digits 0 0 s in
        match parse_fraction s2 with
        | Some (fp, fn, s3) =>
            match parse_exponent s3 with
            | Some (ex, s4) =>
                Some (ip * 10 ^ Z.of_nat fn + fp, ex - Z.of_nat fn, s4)
            | None => None
            end
        | None => None
        end
      else None
  | EmptyString => None
  end.

(** A JSON number: an optional minus sign, then the magnitude. *)
Definition parse_number (s : string) : option (number * string) :=
  match s with
  | String c r =>
      if Ascii.eqb c "-" then
        match parse_magnitude r with
        | Some (m, e, rest) => Some (Dec (- m) e, rest)
        | None => None
        end
      else
        match parse_magnitude s with
        | Some (m, e, rest) => Some (Dec m e, rest)
        | None => None
        end
  | EmptyString => None
  end.

(** [s] starts with [w]: what follows it. *)
Fixpoint strip_prefix (w s : string) : option string :=
  match w, s with
  | EmptyString, _ => Some s
  | String a w', String b s' => if Ascii.eqb a b then strip_prefix w' s' else None
  | String _ _, EmptyString => None
  end.

Definition parse_literal (s : string) : option (value * string) :=
  match strip_prefix "true" s, strip_prefix "false" s, strip_prefix "null" s with
  | Some r, _, _ => Some (VBool true, r)
  | _, Some r, _ => Some (VBool false, r)
  | _, _, Some r => Some (VNull, r)
  | _, _, _ => None
  end.

(** The array index a property key denotes: a decimal with no leading zero,
    below [2^32 - 1]. *)
Definition array_index (k : string) : option Z :=
  match k with
  | EmptyString => None
  | String c r =>
      match read_digits 0 0 k with
      | (z, _, EmptyString) =>
          if (negb (Ascii.eqb c "0") || String.eqb r EmptyString)
             && (z <? 2 ^ 32 - 1)
          then Some z
          else None
      | _ => None
      end
  end.

(** [k] is enumerated before [k']: an array index comes before a larger one
    and before every key that is not an array index. *)
Definition enumerated_before (k k' : string) : bool :=
  match array_index k, array_index k' with
  | Some i, Some j => i <? j
  | Some _, None => true
  | None, _ => false
  end.

(** Defining a property that exists replaces its value in place; a new one
    takes its place in the order of enumeration, an array index among the
    array indices and any other key last. *)
Fixpoint set_prop (k : string) (v : value) (props : list (string * value))
  : list (string * value) :=
  match props with
  | [] => [(k, v)]
  | (k', v') :: rest =>
      if String.eqb k k' then (k, v) :: rest
      else if enumerated_before k k' then (k, v) :: props
      else (k', v') :: set_prop k v rest
  end.

Definition of_option {A : Type} (o : option (A * string)) : presult A :=
  match o with
  | Some (a, rest) => Ok a rest
  | None => Bad
  end.

(** Recursive descent over the JSON grammar.  [parse_elements] reads the
    elements of an array after its bracket or a comma, [parse_members] the
    members of an object after its brace or a comma. *)
Fixpoint parse_value (fuel : nat) (s : string) : presult value :=
  match fuel with
  | O => Spent
  | S fuel' =>
      match skip_ws s with
      | EmptyString => Bad
      | String c r =>
          if Ascii.eqb c "[" then
            match skip_ws r with
            | String c' r' =>
                if Ascii.eqb c' "]" then Ok (VArr []) r'
                else parse_elements fuel' [] r
            | EmptyString => Bad
            end
          else if Ascii.eqb c "{" then
            match skip_ws r with
            | String c' r' =>
                if Ascii.eqb c' "}" then Ok (VObj []) r'
                else parse_members fuel' [] r
            | EmptyString => Bad
            end
          else if Ascii.eqb c dquote then
            match parse_string r with
            | Some (t, rest) => Ok (VStr t) rest
            | None => Bad
            end
          else if Ascii.eqb c "-" || is_digit c then
            match parse_number (String c r) with
            | Some (n, rest) => Ok (VNum n) rest
            | None => Bad
            end
          else of_option (parse_literal (String c r))
      end
  end
with parse_elements (fuel : nat) (acc : list value) (s : string) : presult value :=
  match fuel with
  | O => Spent
  | S fuel' =>
      match parse_value fuel' s with
      | Ok v r =>
          match skip_ws r with
          | String c r' =>
              if Ascii.eqb c "," then parse_elements fuel' (acc ++ [v]) r'
              else if Ascii.eqb c "]" then Ok (VArr (acc ++ [v])) r'
              else Bad
          | EmptyString => Bad
          end
      | Bad => Bad
      | Spent => Spent
      end
  end
with parse_members (fuel : nat) (acc : list (string * value)) (s : string)
  : presult value :=
  match fuel with
  | O => Spent
  | S fuel' =>
      match skip_ws s with
      | String q r =>
          if Ascii.eqb q dquote then
            match parse_string r with
            | Some (k, r1) =>
                match skip_ws r1 with
                | String colon r2 =>
                    if Ascii.eqb colon ":" then
                      match parse_value fuel' r2 with
                      | Ok v r3 =>
                          match skip_ws r3 with
                          | String c r4 =>
                              if Ascii.eqb c "," then
                                parse_members fuel' (set_prop k v acc) r4
                              else if Ascii.eqb c "}" then
                                Ok (VObj (set_prop k v acc)) r4
                              else Bad
                          | EmptyString => Bad
                          end
                      | Bad => Bad
                      | Spent => Spent
                      end
                    else Bad
                | EmptyString => Bad
                end
            | None => Bad
            end
          else Bad
      | EmptyString => Bad
      end
  end.

(** [JSON.parse(s)]: one value with white space around it and nothing else;
    [None] is the SyntaxError it throws.  Every call of the descent consumes
    a character or is followed by one that does, so twice the length of the
    text is budget enough. *)
Definition JSON_parse (s : string) : option value :=
  match parse_value (2 * String.length s + 2) s with
  | Ok v rest =>
      match skip_ws rest with
      | EmptyString => Some v
      | String _ _ => None
      end
  | Bad | Spent => None
  end.

(** *** Objects used as maps *)

(** What an object created by [{}] inherits from: [Object.prototype] to start
    with, and after an assignment to [__proto__] the value assigned (an
    object or an array) or nothing at all ([null]). *)
Inductive prototype : Type :=
  | ObjectPrototype
  | NullPrototype
  | ValuePrototype (v : value).

(** An object used as a map: its own properties and what it inherits
    from. *)
Record object : Type := {
  own : gmap string value;
  proto : prototype
}.

(** [{}]. *)
Definition empty_object : object := {| own := ∅; proto := ObjectPrototype |}.

(** [o !! k] is the own property [k] of [o]. *)
#[global] Instance object_lookup : Lookup string value object :=
  fun k o => own o !! k.

(** The element of an array whose index reads [k]. *)
Fixpoint index_lookup (i : nat) (elems : list value) (k : string) : option value :=
  match elems with
  | [] => None
  | x :: rest =>
      if String.eqb k (pretty (Z.of_nat i)) then Some x
      else index_lookup (S i) rest k
  end.

(** The own property [k] of a value that serves as a prototype. *)
Definition own_property (v : value) (k : string) : option value :=
  match v with
  | VObj props => assoc k props
  | VArr elems =>
      if String.eqb k "length" then Some (VNum (Int (Z.of_nat (List.length elems))))
      else index_lookup 0 elems k
  | _ => None
  end.

(** [obj[k]]: the own property, else the one inherited.  [__proto__] is an
    accessor of [Object.prototype]: read through it, it answers what the
    object inherits from ([Object.prototype] itself has no enumerable
    property of its own and is shown as the empty object).  The other members
    of [Object.prototype] and [Array.prototype] are functions, on which
    [isEmpty] answers as on [undefined]; the handlers pass what they look up
    to [isEmpty] only, and [undefined] stands for those functions. *)
Definition get (obj : object) (k : string) : value :=
  match own obj !! k with
  | Some v => v
  | None =>
      match proto obj with
      | ObjectPrototype => if String.eqb k "__proto__" then VObj [] else VUndefined
      | NullPrototype => VUndefined
      | ValuePrototype p =>
          match own_property p k with
          | Some v => v
          | None => if String.eqb k "__proto__" then p else VUndefined
          end
      end
  end.

(** An assignment to [__proto__] reaches the accessor of [Object.prototype]
    unless a data property of that name comes first: an own one, or one of
    the value inherited from; with [null] as prototype there is no
    accessor. *)
Definition reaches_accessor (obj : object) : bool :=
  match own obj !! "__proto__" with
  | Some _ => false
  | None =>
      match proto obj with
      | ObjectPrototype => true
      | NullPrototype => false
      | ValuePrototype p =>
          match own_property p "__proto__" with
          | Some _ => false
          | None => true
          end
      end
  end.

(** [obj[k] = v].  Any key but [__proto__] becomes an own property.  The
    accessor of [__proto__] replaces what the object inherits from when [v]
    is an object, an array or [null], and does nothing for any other
    value. *)
Definition set (obj : object) (k : string) (v : value) : object :=
  if String.eqb k "__proto__" && reaches_accessor obj then
    match v with
    | VObj _ | VArr _ => {| own := own obj; proto := ValuePrototype v |}
    | VNull => {| own := own obj; proto := NullPrototype |}
    | _ => obj
    end
  else {| own := <[k := v]> (own obj); proto := proto obj |}.

(** [delete obj[k]]: the own property goes, what is inherited stays. *)
Definition delete_property (obj : object) (k : string) : object :=
  {| own := delete k (own obj); proto := proto obj |}.

End JS.

(** ** The lodash helpers app.js requires *)

Module Lodash.
Import JS.

(** [isEmpty(v)]: a string or an array is empty when its length is [0], an
    object when it has no own enumerable property; [null], [undefined],
    numbers and booleans are all empty. *)
Definition isEmpty (v : value) : bool :=
  match v with
  | VStr EmptyString => true
  | VStr (String _ _) => false
  | VArr [] => true
  | VArr (_ :: _) => false
  | VObj [] => true
  | VObj (_ :: _) => false
  | VUndefined | VNull | VBool _ | VNum _ => true
  end.

(** [trim(s)] on a string: white space removed at both ends. *)
Fixpoint trimEnd (s : string) : string :=
  match s with
  | EmptyString => EmptyString
  | String c r => if all_space s then EmptyString else String c (trimEnd r)
  end.

Definition trim (s : string) : string := trimEnd (skip_space s).

Fixpoint includes (x : string) (l : list string) : bool :=
  match l with
  | [] => false
  | y :: r => String.eqb x y || includes x r
  end.

(** [uniq(l)]: the first occurrence of every element, in order. *)
Fixpoint baseUniq (result : list string) (l : list string) : list string :=
  match l with
  | [] => result
  | x :: r =>
      if includes x result then baseUniq result r
      else baseUniq (result ++ [x]) r
  end.

Definition uniq (l : list string) : list string := baseUniq [] l.

(** The elements a lodash collection function iterates over: those of an
    array, the property values of an object in the order of enumeration, the
    characters of a string (one for each byte kept, which is one for each
    character of an ASCII string). *)
Fixpoint chars (s : string) : list value :=
  match s with
  | EmptyString => []
  | String c r => VStr (String c EmptyString) :: chars r
  end.

Definition elements (collection : value) : list value :=
  match collection with
  | VArr elems => elems
  | VObj props => List.map snd props
  | VStr s => chars s
  | _ => []
  end.

(** [keyBy(collection, iteratee)]: [result[iteratee(x)] = x], a plain
    assignment, for every element in turn from [{}]; [None] when the
    conversion of a key throws. *)
Definition keyBy (iteratee : value -> value) (collection : list value)
  : option object :=
  foldl
    (fun acc x =>
       match acc with
       | Some result =>
           match ToString (iteratee x) with
           | Some key => Some (set result key x)
           | None => None
           end
       | None => None
       end)
    (Some empty_object) collection.

(** [keyBy(l)] for a list of strings: the iteratee is the identity and a
    string is its own key, whose conversion cannot throw. *)
Definition keyBy_strings (l : list string) : object :=
  foldl (fun result t => set result t (VStr t)) empty_object l.

(** The iteratee lodash builds from a property name. *)
Definition property (k : string) (v : value) : value := member v k.

End Lodash.

(** ** app.js *)

Module Gateway.
Import JS Lodash.

(** The broker's client object; only its [id] is read. *)
Record Client : Type := { id : string }.

(** The object handed to [server.publish]; a property the source leaves out
    is [undefined]. *)
Module Packet.
Record t : Type := {
  topic : value;
  payload : value;
  messageId : value;
  qos : value;
  retain : bool
}.
End Packet.

(** The packet of the broker's [published] event, its payload already turned
    into a string ([message.payload.toString()]). *)
Module Publication.
Record t : Type := {
  topic : string;
  payload : string
}.
End Publication.

(** The argument of the platform's [message] event. *)
Module Message.
Record t : Type := {
  device : value;
  message : value;
  messageId : value
}.
End Message.

(** The [options] of the [ready] event.  The topic options are strings when
    they are present; [qos] and [port] are whatever the platform sends. *)
Module Options.
Record t : Type := {
  qos : value;
  port : value;
  data_topic : option string;
  message_topic : option string;
  groupmessage_topic : option string;
  authorized_topics : option string
}.
End Options.

(** The defaults read from config.json, which app.js requires; the file is
    not part of the sources at hand, so its three defaults are a parameter of
    the [ready] handler. *)
Module Config.
Record t : Type := {
  data_topic_default : string;
  message_topic_default : string;
  groupmessage_topic_default : string
}.
End Config.

(** The calls a handler makes on the platform and on the broker.
    [log_json r] is [platform.log(JSON.stringify(r))], [log_error m] is
    [platform.log(new Error(m))] and [handleException m] is
    [platform.handleException(new Error(m))]. *)
Inductive call : Type :=
  | server_publish (packet : Packet.t)
  | sendMessageResponse (messageId : value) (status : string)
  | log (text : string)
  | log_json (record : value)
  | log_error (message : string)
  | handleException (message : string)
  | processData (clientId : string) (data : string)
  | sendMessageToDevice (target message : value)
  | sendMessageToGroup (target message : value)
  | notifyConnection (clientId : string)
  | notifyDisconnection (clientId : string)
  | notifyClose.

(** How a handler ends: it returns, or an exception leaves it. *)
Inductive completion : Type :=
  | Returned
  | Thrown (error : string).

(** The broker the [ready] handler creates, with the variables of that
    handler that the broker's event handlers and hooks close over. *)
Record Server : Type := {
  dataTopic : string;
  messageTopic : string;
  groupMessageTopic : string;
  authorizedTopics : object
}.

(** The module-level variables of app.js. *)
Record State : Type := {
  authorizedDevices : object;
  server : option Server;
  port : value;
  qos : value
}.

(** The state when the module has been loaded: [authorizedDevices = {}], the
    other three variables declared and not assigned. *)
Definition initial : State :=
  {| authorizedDevices := empty_object; server := None; port := VUndefined;
     qos := VUndefined |}.

(** *** platform.on('message') *)

Definition on_message (st : State) (message : Message.t)
  : list call * completion :=
  match server st with
  | None => ([], Thrown "TypeError: Cannot read property 'publish' of undefined")
  | Some _ =>
      ([ server_publish
           {| Packet.topic := Message.device message;
              Packet.payload := Message.message message;
              Packet.messageId := Message.messageId message;
              Packet.qos := qos st;
              Packet.retain := false |};
         sendMessageResponse (Message.messageId message) "Message Published";
         log_json
           (VObj [ ("title", VStr "Message Published");
                   ("device", Message.device message);
                   ("messageId", Message.messageId message);
                   ("message", Message.message message) ]) ],
       Returned)
  end.

(** *** platform.on('adddevice') and platform.on('removedevice') *)

(** The text of the TypeError a conversion to a string throws. *)
Definition conversion_error : string :=
  "TypeError: Cannot convert object to primitive value".

(** Each handler gives the state it leaves, the calls it made and how it
    ended.  The key [device._id] is converted before the registry is touched
    and the record is converted before [handleException] is called, so a
    conversion that throws leaves the handler with nothing done. *)
Definition on_adddevice (st : State) (device : value)
  : State * list call * completion :=
  if negb (isEmpty device) && negb (isEmpty (member device "_id")) then
    match ToString (member device "_id") with
    | Some key =>
        ({| authorizedDevices := set (authorizedDevices st) key device;
            server := server st; port := port st; qos := qos st |},
         [ log ("Successfully added " ++ key
                  ++ " to the pool of authorized devices.") ],
         Returned)
    | None => (st, [], Thrown conversion_error)
    end
  else
    match ToString device with
    | Some text =>
        (st,
         [ handleException ("Device data invalid. Device not added. " ++ text) ],
         Returned)
    | None => (st, [], Thrown conversion_error)
    end.

Definition on_removedevice (st : State) (device : value)
  : State * list call * completion :=
  if negb (isEmpty device) && negb (isEmpty (member device "_id")) then
    match ToString (member device "_id") with
    | Some key =>
        ({| authorizedDevices := delete_property (authorizedDevices st) key;
            server := server st; port := port st; qos := qos st |},
         [ log ("Successfully removed " ++ key
                  ++ " from the pool of authorized devices.") ],
         Returned)
    | None => (st, [], Thrown conversion_error)
    end
  else
    match ToString device with
    | Some text =>
        (st,
         [ handleException ("Device data invalid. Device not removed. " ++ text) ],
         Returned)
    | None => (st, [], Thrown conversion_error)
    end.

(** *** platform.once('ready') *)

(** [a || b] on a string option: [undefined] and the empty string are
    falsy. *)
Definition or_default (a : option string) (b : string) : string :=
  match a with
  | Some (String c r) => String c r
  | Some EmptyString | None => b
  end.

(** The list the handler builds in [authorizedTopics] before [keyBy]: the
    three system topics, then the operator's comma-separated ones, all
    trimmed, duplicates dropped. *)
Definition topic_list (config : Config.t) (options : Options.t) : list string :=
  let dataTopic :=
    or_default (Options.data_topic options) (Config.data_topic_default config) in
  let messageTopic :=
    or_default (Options.message_topic options) (Config.message_topic_default config) in
  let groupMessageTopic :=
    or_default (Options.groupmessage_topic options)
      (Config.groupmessage_topic_default config) in
  let tmpTopics := [dataTopic; messageTopic; groupMessageTopic] in
  let authorizedTopics :=
    match Options.authorized_topics options with
    | Some (String c r) => (tmpTopics ++ split "," (String c r))%list
    | Some EmptyString | None => tmpTopics
    end in
  uniq (List.map trim authorizedTopics).

Definition new_server (config : Config.t) (options : Options.t) : Server :=
  {| dataTopic :=
       or_default (Options.data_topic options) (Config.data_topic_default config);
     messageTopic :=
       or_default (Options.message_topic options)
         (Config.message_topic_default config);
     groupMessageTopic :=
       or_default (Options.groupmessage_topic options)
         (Config.groupmessage_topic_default config);
     authorizedTopics := keyBy_strings (topic_list config options) |}.

(** The handler assigns [qos], replaces [authorizedDevices] when the snapshot
    is not empty, builds the topics, assigns [port] and creates the broker,
    in that order: when the conversion in [parseInt] throws nothing has been
    assigned, and when a key conversion in [keyBy] throws only [qos] has.
    The broker's event handlers and hooks are the functions below, which take
    the broker they belong to; the [close] event and the broker's [error]
    event are not modelled. *)
Definition ready (config : Config.t) (options : Options.t)
    (registeredDevices : value) (st : State) : State * completion :=
  match
    (if strict_eq_zero (Options.qos options) || isEmpty (Options.qos options)
     then Some (Int 0)
     else parseInt (Options.qos options))
  with
  | None => (st, Thrown conversion_error)
  | Some level =>
      match
        (if negb (isEmpty registeredDevices)
         then keyBy (property "_id") (elements registeredDevices)
         else Some (authorizedDevices st))
      with
      | None =>
          ({| qos := VNum level; authorizedDevices := authorizedDevices st;
              port := port st; server := server st |},
           Thrown conversion_error)
      | Some devices =>
          ({| qos := VNum level; authorizedDevices := devices;
              port := Options.port options;
              server := Some (new_server config options) |},
           Returned)
      end
  end.

(** The state the handler leaves. *)
Definition on_ready (config : Config.t) (options : Options.t)
    (registeredDevices : value) (st : State) : State :=
  fst (ready config options registeredDevices st).

(** *** server.on('published') *)

Definition invalid_data_text (rawMessage : string) : string :=
  "Invalid data sent. Data must be a valid JSON String. Raw Message: " ++ rawMessage.

Definition invalid_message_text : string :=
  "Invalid message or command. Message must be a valid JSON String with "
    ++ quoted "target" ++ " and " ++ quoted "message" ++ " fields. "
    ++ quoted "target" ++ " is a registered Device ID. "
    ++ quoted "message" ++ " is the payload.".

Definition invalid_group_message_text : string :=
  "Invalid group message or command. Group messages must be a valid JSON String with "
    ++ quoted "target" ++ " and " ++ quoted "message" ++ " fields. "
    ++ quoted "target" ++ " is a device group id or name. "
    ++ quoted "message" ++ " is the payload.".

(** The acknowledgment the router publishes to the client's own topic. *)
Definition acknowledgment (st : State) (client : Client) (text : string) : call :=
  server_publish
    {| Packet.topic := VStr (id client);
       Packet.payload := VStr text;
       Packet.messageId := VUndefined;
       Packet.qos := qos st;
       Packet.retain := false |}.

(** The final callback of each [async.waterfall]: [asyncify(JSON.parse)]
    hands it the error when the payload does not parse and the parsed value
    otherwise.  The callback runs outside asyncify's [try], so an exception
    raised in it is caught by nothing in app.js: the calls made so far stand
    and the rest of the callback is not run.  In the two message branches
    [msg.target] is read with no test of [msg], which throws when the payload
    is [null]. *)
Definition on_published (st : State) (srv : Server)
    (message : Publication.t) (client : Client) : list call * completion :=
  let rawMessage := Publication.payload message in
  if String.eqb (Publication.topic message) (dataTopic srv) then
    match JSON_parse rawMessage with
    | None => ([log_error (invalid_data_text rawMessage)], Returned)
    | Some data =>
        if isEmpty data then
          ([handleException (invalid_data_text rawMessage)], Returned)
        else
          ([ processData (id client) rawMessage;
             acknowledgment st client "Data Received";
             log_json
               (VObj [ ("title", VStr "MQTT Gateway - Data Received.");
                       ("device", VStr (id client));
                       ("data", data) ]) ],
           Returned)
    end
  else if String.eqb (Publication.topic message) (messageTopic srv) then
    match JSON_parse rawMessage with
    | None => ([handleException invalid_message_text], Returned)
    | Some msg =>
        if nullish msg then
          ([], Thrown "TypeError: Cannot read property 'target' of null")
        else if isEmpty (member msg "target") || isEmpty (member msg "message") then
          ([handleException invalid_message_text], Returned)
        else
          ([ sendMessageToDevice (member msg "target") (member msg "message");
             acknowledgment st client "Device Message Received";
             log_json
               (VObj [ ("title", VStr "MQTT Gateway - Message Sent.");
                       ("source", VStr (id client));
                       ("target", member msg "target");
                       ("message", msg) ]) ],
           Returned)
    end
  else if String.eqb (Publication.topic message) (groupMessageTopic srv) then
    match JSON_parse rawMessage with
    | None => ([handleException invalid_group_message_text], Returned)
    | Some msg =>
        if nullish msg then
          ([], Thrown "TypeError: Cannot read property 'target' of null")
        else if isEmpty (member msg "target") || isEmpty (member msg "message") then
          ([handleException invalid_group_message_text], Returned)
        else
          ([ sendMessageToGroup (member msg "target") (member msg "message");
             acknowledgment st client "Group Message Received";
             log_json
               (VObj [ ("title", VStr "MQTT Gateway - Group Message Sent.");
                       ("source", VStr (id client));
                       ("target", member msg "target");
                       ("message", msg) ]) ],
           Returned)
    end
  else ([], Returned).

(** *** The session events relayed to the platform *)

Definition on_clientConnected (client : Client) : list call :=
  [ log ("MQTT Gateway Device Connection received. Device ID: " ++ id client);
    notifyConnection (id client) ].

Definition on_clientDisconnected (client : Client) : list call :=
  [ log ("MQTT Gateway Device Disconnection received. Device ID: " ++ id client);
    notifyDisconnection (id client) ].

Definition on_delivered (messageId : value) : list call :=
  [ sendMessageResponse messageId "Message Acknowledged" ].

Definition on_closed : list call := [ notifyClose ].

(** *** The authorization hooks *)

(** The value of the local [isAuthorized] of [authorizeForward]. *)
Definition isAuthorized (st : State) (clientId : string) : bool :=
  negb (isEmpty (get (authorizedDevices st) clientId)).

(** Each hook answers the broker through [callback(null, decision)]; the
    decision and the calls made before it are returned. *)
Definition authorizePublish (st : State) (srv : Server) (client : Client)
    (topic : string) (payload : string) : bool * list call :=
  let isAuthorized :=
    negb (isEmpty (get (authorizedDevices st) (id client)))
    || String.eqb topic (id client)
    || negb (isEmpty (get (authorizedTopics srv) topic)) in
  (isAuthorized,
   if isAuthorized then []
   else [ handleException
            ("Device " ++ id client ++ " is not authorized to publish to topic "
               ++ topic ++ ". Device not registered.") ]).

Definition authorizeSubscribe (st : State) (srv : Server) (client : Client)
    (topic : string) : bool * list call :=
  let isAuthorized :=
    negb (isEmpty (get (authorizedDevices st) (id client)))
    || String.eqb topic (id client)
    || negb (isEmpty (get (authorizedTopics srv) topic)) in
  (negb (isEmpty (get (authorizedDevices st) (id client)))
   || String.eqb topic (id client)
   || negb (isEmpty (get (authorizedTopics srv) topic)),
   if isAuthorized then []
   else [ handleException
            ("Device " ++ id client ++ " is not authorized to subscribe to topic "
               ++ topic ++ ". Device not registered.") ]).

Definition authorizeForward (st : State) (client : Client)
    (packet : Publication.t) : bool * list call :=
  let isAuthorized := negb (isEmpty (get (authorizedDevices st) (id client))) in
  (negb (isEmpty (get (authorizedDevices st) (id client))),
   if isAuthorized then []
   else [ handleException
            ("Device " ++ id client
               ++ " is not authorized to forward messages. Device not registered.") ]).

(** *** Sequences of registry events *)

Inductive event : Type :=
  | adddevice (device : value)
  | removedevice (device : value).

Definition handle (st : State) (ev : event) : State :=
  match ev with
  | adddevice device => fst (fst (on_adddevice st device))
  | removedevice device => fst (fst (on_removedevice st device))
  end.

Definition run (st : State) (evs : list event) : State := foldl handle st evs.

End Gateway.

(** ** What the specification says, in its own words *)

Module Spec.
Import JS Lodash Gateway.

(** A device record is accepted by an add or remove event when it is
    non-empty and its identity field is non-empty. *)
Definition valid (device : value) : bool :=
  negb (isEmpty device) && negb (isEmpty (member device "_id")).

(** The registry key that a record's identity field denotes, when its
    conversion to a string does not throw. *)
Definition key_of (device : value) : option string :=
  ToString (member device "_id").

(** [ev] is a valid add or remove event for the identity [i]. *)
Definition concerns (i : string) (ev : event) : bool :=
  match ev with
  | adddevice device | removedevice device =>
      valid device
      && match key_of device with
         | Some k => String.eqb k i
         | None => false
         end
  end.

(** The most recently processed valid add or remove event for [i]. *)
Definition last_event_for (i : string) (evs : list event) : option event :=
  last (filter (fun ev => concerns i ev = true) evs).

(** The identity [i] is present in the registry: it is one of its keys. *)
Definition present (st : State) (i : string) : Prop :=
  is_Some (authorizedDevices st !! i).

(** The identity [i] has a non-empty record in the registry. *)
Definition registered (st : State) (i : string) : Prop :=
  ∃ d, authorizedDevices st !! i = Some d ∧ isEmpty d = false.

(** Every record of the registry is non-empty. *)
Definition records_nonempty (st : State) : Prop :=
  forall k d, authorizedDevices st !! k = Some d -> isEmpty d = false.

(** The registry inherits from [Object.prototype], as every object does
    until something is assigned to its [__proto__]. *)
Definition intact (obj : object) : Prop := proto obj = ObjectPrototype.

(** The Authorized Topic Set: the keys of the broker's [authorizedTopics]. *)
Definition authorized_topic_set (srv : Server) : gset string :=
  dom (own (authorizedTopics srv)).



Definition is_processData (c : call) : bool :=
  match c with
  | processData _ _ => true
  | _ => false
  end.

Definition is_server_publish (c : call) : bool :=
  match c with
  | server_publish _ => true
  | _ => false
  end.

End Spec.

(** ** Concrete inputs *)

Module Examples.
Import JS Lodash Gateway.

Definition config : Config.t :=
  {| Config.data_topic_default := "reekoh/data";
     Config.message_topic_default := "reekoh/messages";
     Config.groupmessage_topic_default := "reekoh/groupmessages" |}.

(** Options with nothing set but the port. *)
Definition plain_options : Options.t :=
  {| Options.qos := VUndefined;
     Options.port := VNum (Int 1883);
     Options.data_topic := None;
     Options.message_topic := None;
     Options.groupmessage_topic := None;
     Options.authorized_topics := None |}.

Definition with_qos (q : value) : Options.t :=
  {| Options.qos := q;
     Options.port := VNum (Int 1883);
     Options.data_topic := None;
     Options.message_topic := None;
     Options.groupmessage_topic := None;
     Options.authorized_topics := None |}.

(** The operator's shared topics end in a comma: [alerts,]. *)
Definition trailing_comma_options : Options.t :=
  {| Options.qos := VUndefined;
     Options.port := VNum (Int 1883);
     Options.data_topic := None;
     Options.message_topic := None;
     Options.groupmessage_topic := None;
     Options.authorized_topics := Some "alerts," |}.

Definition dev1 : Client := {| id := "dev1" |}.
Definition dev9 : Client := {| id := "dev9" |}.

Definition dev1_record : value := VObj [("_id", VStr "dev1")].

(** A record with no identity field, and an empty one. *)
Definition lamp_record : value := VObj [("name", VStr "lamp")].
Definition empty_record : value := VObj [].

(** The state after [ready] with no device registered. *)
Definition started : State := on_ready config plain_options (VArr []) initial.

Definition broker : Server := new_server config plain_options.



(** The state after [ready] with a snapshot of one empty record, and the
    client whose identity is the text [undefined]. *)
Definition started_with_empty_record : State :=
  on_ready config plain_options (VArr [empty_record]) initial.

Definition undefined_client : Client := {| id := "undefined" |}.

(** The state after [ready] and the addition of [dev1]. *)
Definition with_dev1 : State := handle started (adddevice dev1_record).

(** A device record whose identity is the empty string. *)
Definition blank_id_record : value := VObj [("_id", VStr EmptyString)].

(** A platform message for a device that is not registered. *)
Definition ghost_message : Message.t :=
  {| Message.device := VStr "ghost";
     Message.message := VStr "reboot";
     Message.messageId := VStr "m-1" |}.

(** The telemetry payload of the specification: an object whose [temp] is 21. *)
Definition temp_payload : string := "{" ++ quoted "temp" ++ ":21}".

(** A direct message with a target and no message. *)
Definition target_only_payload : string :=
  "{" ++ quoted "target" ++ ":" ++ quoted "dev1" ++ "}".

Definition on_topic (topic payload : string) : Publication.t :=
  {| Publication.topic := topic; Publication.payload := payload |}.

End Examples.

(** ** The authenticate hook *)

Module Authentication.
Import JS Lodash Gateway.

(** The two options of the ready event that the hook reads,
    [options.user] and [options.password]. *)
Module Credentials.
Record t : Type := {
  user : value;
  password : value
}.
End Credentials.

(** The hook is installed on the broker only when both options are
    non-empty; otherwise the broker keeps its own. *)
Definition installed (options : Credentials.t) : bool :=
  negb (isEmpty (Credentials.user options))
  && negb (isEmpty (Credentials.password options)).

(** [(!isEmpty(v)) ? v.toString() : ''], for the string or buffer the broker
    hands over (a buffer is the string of its bytes). *)
Definition text (v : value) : string :=
  if negb (isEmpty v) then to_string v else EmptyString.

(** [v === s] for a string [s]. *)
Definition strict_eq_text (v : value) (s : string) : bool :=
  match v with
  | VStr t => String.eqb t s
  | _ => false
  end.

(** [server.authenticate]: the decision handed to the callback and the calls
    made before it.  [client] is the broker's client object as a value. *)
Definition authenticate (options : Credentials.t)
    (client username password : value) : bool * list call :=
  let username := text username in
  let password := text password in
  if strict_eq_text (Credentials.user options) username
     && strict_eq_text (Credentials.password options) password
  then (true, [])
  else
    (false,
     [ log ("MQTT Gateway - Authentication Failed on Client: "
              ++ (if negb (isEmpty client) then to_string (member client "id")
                  else "No Client ID")
              ++ ".") ]).

End Authentication.

(** ** Notions used to state what the handlers keep *)

Module Observations.
Import JS Lodash Gateway Spec.

(** The device record an event carries. *)
Definition device_of (ev : event) : value :=
  match ev with
  | adddevice device | removedevice device => device
  end.

(** A call that hands a payload to data ingestion, device messaging or group
    messaging. *)
Definition is_dispatch (c : call) : bool :=
  match c with
  | processData _ _ | sendMessageToDevice _ _ | sendMessageToGroup _ _ => true
  | _ => false
  end.

(** The topics the ready handler collects before it trims them and drops the
    duplicates: the three system topics, then the segments of the operator's
    list. *)
Definition raw_topics (config : Config.t) (options : Options.t) : list string :=
  [ or_default (Options.data_topic options) (Config.data_topic_default config);
    or_default (Options.message_topic options) (Config.message_topic_default config);
    or_default (Options.groupmessage_topic options)
      (Config.groupmessage_topic_default config) ]
  ++ match Options.authorized_topics options with
     | Some (String c r) => split "," (String c r)
     | Some EmptyString | None => []
     end.

(** The string holds decimal digits only. *)
Fixpoint all_digits (s : string) : bool :=
  match s with
  | EmptyString => true
  | String c r => is_digit c && all_digits r
  end.

(** The states the module can be in: the one it is loaded with, and those a
    ready event or a registry event leads to. *)
Inductive reachable : State -> Prop :=
  | reachable_initial : reachable initial
  | reachable_ready (config : Config.t) (options : Options.t)
      (registeredDevices : value) (st : State) :
      reachable st -> reachable (on_ready config options registeredDevices st)
  | reachable_event (st : State) (ev : event) :
      reachable st -> reachable (handle st ev).

(** Every record of the registry is stored under the key its identity field
    denotes. *)
Definition well_keyed (st : State) : Prop :=
  forall k d, authorizedDevices st !! k = Some d -> key_of d = Some k.

(** No event of the sequence is a valid add or remove for the identity
    [__proto__]. *)
Definition ordinary (evs : list event) : Prop :=
  Forall (fun ev => concerns "__proto__" ev = false) evs.

End Observations.

(** ** More concrete inputs *)

Module Inputs.
Import JS Lodash Gateway Examples Authentication.

(** A second record for [dev1], and a record for [dev2]. *)
Definition dev1_renamed : value :=
  VObj [("_id", VStr "dev1"); ("name", VStr "pump")].

Definition dev2_record : value := VObj [("_id", VStr "dev2")].

(** The broker's client object for [dev1], as a value. *)
Definition dev1_object : value := VObj [("id", VStr "dev1")].

Definition credentials : Credentials.t :=
  {| Credentials.user := VStr "gateway"; Credentials.password := VStr "s3cret" |}.

(** Options whose operator list is [ alerts , status]. *)
Definition spaced_options : Options.t :=
  {| Options.qos := VUndefined;
     Options.port := VNum (Int 1883);
     Options.data_topic := None;
     Options.message_topic := None;
     Options.groupmessage_topic := None;
     Options.authorized_topics := Some " alerts , status" |}.

(** A direct message for [dev2] with the message [on]. *)
Definition direct_payload : string :=
  "{" ++ quoted "target" ++ ":" ++ quoted "dev2" ++ ","
      ++ quoted "message" ++ ":" ++ quoted "on" ++ "}".

Definition direct_document : value :=
  VObj [("target", VStr "dev2"); ("message", VStr "on")].

(** A record whose identity is the text [__proto__]. *)
Definition polluting_record : value :=
  VObj [("_id", VStr "__proto__"); ("name", VStr "x")].

(** A record whose [toString] is not a function: it cannot be converted to
    a string. *)
Definition unprintable_record : value := VObj [("toString", VNum (Int 1))].

(** A record whose identity cannot be converted to a string. *)
Definition unprintable_id_record : value :=
  VObj [("_id", unprintable_record)].

(** Options whose operator list is [__proto__,alerts]. *)
Definition proto_topic_options : Options.t :=
  {| Options.qos := VUndefined;
     Options.port := VNum (Int 1883);
     Options.data_topic := None;
     Options.message_topic := None;
     Options.groupmessage_topic := None;
     Options.authorized_topics := Some "__proto__,alerts" |}.

End Inputs.

(** * Properties *)

Import JS Lodash Gateway Spec Examples.
Import Authentication Observations Inputs.

(** ** JSON.parse stays within its budget *)

Local Abbreviation len := String.length.

Lemma skip_ws_length (s : string) : (len (skip_ws s) <= len s)%nat.
Proof.
  induction s as [| c r IH]; simpl; [lia |].
  destruct (is_ws c); simpl; lia.
Qed.

Lemma skip_ws_cons (s : string) (c : ascii) (r : string) :
  skip_ws s = String c r -> (len r < len s)%nat.
Proof. intros H. pose proof (skip_ws_length s) as L. rewrite H in L. simpl in L. lia. Qed.

Lemma read_digits_length (acc : Z) (n : nat) (s : string) (z : Z) (m : nat) (r : string) :
  read_digits acc n s = (z, m, r) ->
  (len r <= len s)%nat /\ (len r + m = len s + n)%nat.
Proof.
  revert acc n. induction s as [| c t IH]; intros acc n H; simpl in H.
  - injection H as <- <- <-. simpl. lia.
  - destruct (is_digit c).
    + apply IH in H. simpl. lia.
    + injection H as <- <- <-. simpl. lia.
Qed.

Lemma parse_string_length_bounded (n : nat) (s t r : string) :
  (len s <= n)%nat -> parse_string s = Some (t, r) -> (len r < len s)%nat.
Proof.
  revert s t r. induction n as [| n IH]; intros s t r L H.
  { destruct s; [discriminate | simpl in L; lia]. }
  destruct s as [| c s1]; [discriminate |]. simpl in H, L.
  destruct (Ascii.eqb c dquote).
  { injection H as <- <-. simpl. lia. }
  destruct (Ascii.eqb c "\").
  - destruct s1 as [| e s2]; [discriminate |].
    destruct (Ascii.eqb e "u").
    + destruct s2 as [| h1 [| h2 [| h3 [| h4 s3]]]]; try discriminate.
      destruct (hex4 h1 h2 h3 h4); [| discriminate].
      destruct (parse_string s3) as [[t' r'] |] eqn:E; [| discriminate].
      injection H as <- <-. apply IH in E; simpl in *; lia.
    + destruct (escape e); [| discriminate].
      destruct (parse_string s2) as [[t' r'] |] eqn:E; [| discriminate].
      injection H as <- <-. apply IH in E; simpl in *; lia.
  - destruct (code c <? 32)%Z; [discriminate |].
    destruct (parse_string s1) as [[t' r'] |] eqn:E; [| discriminate].
    injection H as <- <-. apply IH in E; simpl in *; lia.
Qed.

Lemma parse_string_length (s t r : string) :
  parse_string s = Some (t, r) -> (len r < len s)%nat.
Proof. apply (parse_string_length_bounded (len s)). lia. Qed.

Lemma parse_exponent_length (s : string) (x : Z) (r : string) :
  parse_exponent s = Some (x, r) -> (len r <= len s)%nat.
Proof.
  unfold parse_exponent. destruct s as [| c s1]; [intros [= <- <-]; lia |].
  destruct (Ascii.eqb c "e" || Ascii.eqb c "E").
  - destruct s1 as [| g s2].
    + simpl. discriminate.
    + destruct (Ascii.eqb g "-"); [| destruct (Ascii.eqb g "+")];
        match goal with
        | |- context [read_digits ?a ?n ?t] =>
            destruct (read_digits a n t) as [[z m] rest] eqn:E;
            apply read_digits_length in E
        end;
        (destruct m; [discriminate | intros [= <- <-]; simpl in *; lia]).
  - intros [= <- <-]. lia.
Qed.

Lemma parse_fraction_length (s : string) (z : Z) (m : nat) (r : string) :
  parse_fraction s = Some (z, m, r) -> (len r <= len s)%nat.
Proof.
  unfold parse_fraction. destruct s as [| c s1]; [intros [= <- <- <-]; lia |].
  destruct (Ascii.eqb c ".").
  - destruct (read_digits 0 0 s1) as [[z' m'] rest] eqn:E.
    apply read_digits_length in E.
    destruct m'; [discriminate | intros [= <- <- <-]; simpl in *; lia].
  - intros [= <- <- <-]. lia.
Qed.

Lemma parse_magnitude_length (s : string) (m e : Z) (r : string) :
  parse_magnitude s = Some (m, e, r) -> (len r < len s)%nat.
Proof.
  unfold parse_magnitude. destruct s as [| c r0]; [discriminate |].
  destruct (is_digit c) eqn:D; [| discriminate].
  destruct (Ascii.eqb c "0").
  - destruct (parse_fraction r0) as [[[fp fn] s3] |] eqn:F; [| discriminate].
    destruct (parse_exponent s3) as [[ex s4] |] eqn:X; [| discriminate].
    intros [= _ _ <-]. apply parse_fraction_length in F.
    apply parse_exponent_length in X. simpl. lia.
  - destruct (read_digits 0 0 (String c r0)) as [[ip k] s2] eqn:R.
    pose proof R as R'. simpl in R'. rewrite D in R'.
    apply read_digits_length in R'.
    destruct (parse_fraction s2) as [[[fp fn] s3] |] eqn:F; [| discriminate].
    destruct (parse_exponent s3) as [[ex s4] |] eqn:X; [| discriminate].
    intros [= _ _ <-]. apply parse_fraction_length in F.
    apply parse_exponent_length in X. simpl. lia.
Qed.

Lemma parse_number_length (s : string) (n : number) (r : string) :
  parse_number s = Some (n, r) -> (len r < len s)%nat.
Proof.
  unfold parse_number. destruct s as [| c r0]; [discriminate |].
  destruct (Ascii.eqb c "-").
  - destruct (parse_magnitude r0) as [[[m e] rest] |] eqn:M; [| discriminate].
    intros [= _ <-]. apply parse_magnitude_length in M. simpl. lia.
  - destruct (parse_magnitude (String c r0)) as [[[m e] rest] |] eqn:M; [| discriminate].
    intros [= _ <-]. apply parse_magnitude_length in M. exact M.
Qed.

Lemma strip_prefix_length (w s r : string) :
  strip_prefix w s = Some r -> (len s = len w + len r)%nat.
Proof.
  revert s. induction w as [| a w IH]; intros s H; simpl in H.
  - injection H as <-. reflexivity.
  - destruct s as [| b s']; [discriminate |].
    destruct (Ascii.eqb a b); [| discriminate].
    apply IH in H. simpl. lia.
Qed.

Lemma parse_literal_length (s : string) (v : value) (r : string) :
  parse_literal s = Some (v, r) -> (len r < len s)%nat.
Proof.
  unfold parse_literal.
  destruct (strip_prefix "true" s) as [r1 |] eqn:E1.
  { intros [= <- <-]. apply strip_prefix_length in E1. simpl in E1. lia. }
  destruct (strip_prefix "false" s) as [r2 |] eqn:E2.
  { intros [= <- <-]. apply strip_prefix_length in E2. simpl in E2. lia. }
  destruct (strip_prefix "null" s) as [r3 |] eqn:E3; [| discriminate].
  intros [= <- <-]. apply strip_prefix_length in E3. simpl in E3. lia.
Qed.

(** The three functions of the descent, one step unfolded. *)
Lemma parse_value_S (f : nat) (s : string) :
  parse_value (S f) s =
      match skip_ws s with
      | EmptyString => Bad
      | String c r =>
          if Ascii.eqb c "[" then
            match skip_ws r with
            | String c' r' =>
                if Ascii.eqb c' "]" then Ok (VArr []) r'
                else parse_elements f [] r
            | EmptyString => Bad
            end
          else if Ascii.eqb c "{" then
            match skip_ws r with
            | String c' r' =>
                if Ascii.eqb c' "}" then Ok (VObj []) r'
                else parse_members f [] r
            | EmptyString => Bad
            end
          else if Ascii.eqb c dquote then
            match parse_string r with
            | Some (t, rest) => Ok (VStr t) rest
            | None => Bad
            end
          else if Ascii.eqb c "-" || is_digit c then
            match parse_number (String c r) with
            | Some (n, rest) => Ok (VNum n) rest
            | None => Bad
            end
          else of_option (parse_literal (String c r))
      end.
Proof. reflexivity. Qed.

Lemma parse_elements_S (f : nat) (acc : list value) (s : string) :
  parse_elements (S f) acc s =
      match parse_value f s with
      | Ok v r =>
          match skip_ws r with
          | String c r' =>
              if Ascii.eqb c "," then parse_elements f (acc ++ [v]) r'
              else if Ascii.eqb c "]" then Ok (VArr (acc ++ [v])) r'
              else Bad
          | EmptyString => Bad
          end
      | Bad => Bad
      | Spent => Spent
      end.
Proof. reflexivity. Qed.

Lemma parse_members_S (f : nat) (acc : list (string * value)) (s : string) :
  parse_members (S f) acc s =
      match skip_ws s with
      | String q r =>
          if Ascii.eqb q dquote then
            match parse_string r with
            | Some (k, r1) =>
                match skip_ws r1 with
                | String colon r2 =>
                    if Ascii.eqb colon ":" then
                      match parse_value f r2 with
                      | Ok v r3 =>
                          match skip_ws r3 with
                          | String c r4 =>
                              if Ascii.eqb c "," then
                                parse_members f (set_prop k v acc) r4
                              else if Ascii.eqb c "}" then
                                Ok (VObj (set_prop k v acc)) r4
                              else Bad
                          | EmptyString => Bad
                          end
                      | Bad => Bad
                      | Spent => Spent
                      end
                    else Bad
                | EmptyString => Bad
                end
            | None => Bad
            end
          else Bad
      | EmptyString => Bad
      end.
Proof. reflexivity. Qed.

(** Progress: a successful step consumes input. *)
Lemma parse_progress (f : nat) :
  (forall s v r, parse_value f s = Ok v r -> (len r < len s)%nat)
  /\ (forall acc s v r, parse_elements f acc s = Ok v r -> (len r < len s)%nat)
  /\ (forall acc s v r, parse_members f acc s = Ok v r -> (len r < len s)%nat).
Proof.
  induction f as [| f (IHv & IHe & IHm)].
  { repeat split; intros; discriminate. }
  split; [| split].
  - intros s v r. rewrite parse_value_S.
    destruct (skip_ws s) as [| c r0] eqn:W; [discriminate |].
    apply skip_ws_cons in W.
    destruct (Ascii.eqb c "[").
    { destruct (skip_ws r0) as [| c' r'] eqn:W'; [discriminate |].
      apply skip_ws_cons in W'.
      destruct (Ascii.eqb c' "]").
      - intros [= _ <-]. lia.
      - intros H. apply IHe in H. lia. }
    destruct (Ascii.eqb c "{").
    { destruct (skip_ws r0) as [| c' r'] eqn:W'; [discriminate |].
      apply skip_ws_cons in W'.
      destruct (Ascii.eqb c' "}").
      - intros [= _ <-]. lia.
      - intros H. apply IHm in H. lia. }
    destruct (Ascii.eqb c dquote).
    { destruct (parse_string r0) as [[t rest] |] eqn:P; [| discriminate].
      apply parse_string_length in P. intros [= _ <-]. lia. }
    destruct (Ascii.eqb c "-" || is_digit c).
    { destruct (parse_number (String c r0)) as [[n rest] |] eqn:P; [| discriminate].
      apply parse_number_length in P. simpl in P. intros [= _ <-]. lia. }
    destruct (parse_literal (String c r0)) as [[v' rest] |] eqn:P; [| discriminate].
    apply parse_literal_length in P. simpl in P. simpl. intros [= _ <-]. lia.
  - intros acc s v r. rewrite parse_elements_S.
    destruct (parse_value f s) as [v0 r0 | |] eqn:P; try discriminate.
    apply IHv in P.
    destruct (skip_ws r0) as [| c r'] eqn:W; [discriminate |].
    apply skip_ws_cons in W.
    destruct (Ascii.eqb c ",").
    { intros H. apply IHe in H. lia. }
    destruct (Ascii.eqb c "]"); [| discriminate].
    intros [= _ <-]. lia.
  - intros acc s v r. rewrite parse_members_S.
    destruct (skip_ws s) as [| q r0] eqn:W; [discriminate |].
    apply skip_ws_cons in W.
    destruct (Ascii.eqb q dquote); [| discriminate].
    destruct (parse_string r0) as [[k r1] |] eqn:P; [| discriminate].
    apply parse_string_length in P.
    destruct (skip_ws r1) as [| colon r2] eqn:W1; [discriminate |].
    apply skip_ws_cons in W1.
    destruct (Ascii.eqb colon ":"); [| discriminate].
    destruct (parse_value f r2) as [v0 r3 | |] eqn:PV; try discriminate.
    apply IHv in PV.
    destruct (skip_ws r3) as [| c r4] eqn:W3; [discriminate |].
    apply skip_ws_cons in W3.
    destruct (Ascii.eqb c ",").
    { intros H. apply IHm in H. lia. }
    destruct (Ascii.eqb c "}"); [| discriminate].
    intros [= _ <-]. lia.
Qed.

(** The budget is never spent when it is at least twice the input. *)
Lemma parse_budget (f : nat) :
  (forall s, (2 * len s + 1 <= f)%nat -> parse_value f s <> Spent)
  /\ (forall acc s, (2 * len s + 2 <= f)%nat -> parse_elements f acc s <> Spent)
  /\ (forall acc s, (2 * len s + 2 <= f)%nat -> parse_members f acc s <> Spent).
Proof.
  induction f as [| f (IHv & IHe & IHm)].
  { repeat split; intros; lia. }
  split; [| split].
  - intros s L. rewrite parse_value_S.
    destruct (skip_ws s) as [| c r0] eqn:W; [discriminate |].
    apply skip_ws_cons in W.
    destruct (Ascii.eqb c "[").
    { destruct (skip_ws r0) as [| c' r']; [discriminate |].
      destruct (Ascii.eqb c' "]"); [discriminate |]. apply IHe. lia. }
    destruct (Ascii.eqb c "{").
    { destruct (skip_ws r0) as [| c' r']; [discriminate |].
      destruct (Ascii.eqb c' "}"); [discriminate |]. apply IHm. lia. }
    destruct (Ascii.eqb c dquote).
    { destruct (parse_string r0) as [[t rest] |]; discriminate. }
    destruct (Ascii.eqb c "-" || is_digit c).
    { destruct (parse_number (String c r0)) as [[n rest] |]; discriminate. }
    destruct (parse_literal (String c r0)) as [[v' rest] |]; discriminate.
  - intros acc s L. rewrite parse_elements_S.
    destruct (parse_value f s) as [v0 r0 | |] eqn:P.
    + apply (proj1 (parse_progress f)) in P.
      destruct (skip_ws r0) as [| c r'] eqn:W; [discriminate |].
      apply skip_ws_cons in W.
      destruct (Ascii.eqb c ","); [apply IHe; lia |].
      destruct (Ascii.eqb c "]"); discriminate.
    + discriminate.
    + exfalso. revert P. apply IHv. lia.
  - intros acc s L. rewrite parse_members_S.
    destruct (skip_ws s) as [| q r0] eqn:W; [discriminate |].
    apply skip_ws_cons in W.
    destruct (Ascii.eqb q dquote); [| discriminate].
    destruct (parse_string r0) as [[k r1] |] eqn:P; [| discriminate].
    apply parse_string_length in P.
    destruct (skip_ws r1) as [| colon r2] eqn:W1; [discriminate |].
    apply skip_ws_cons in W1.
    destruct (Ascii.eqb colon ":"); [| discriminate].
    destruct (parse_value f r2) as [v0 r3 | |] eqn:PV.
    + apply (proj1 (parse_progress f)) in PV.
      destruct (skip_ws r3) as [| c r4] eqn:W3; [discriminate |].
      apply skip_ws_cons in W3.
      destruct (Ascii.eqb c ","); [apply IHm; lia |].
      destruct (Ascii.eqb c "}"); discriminate.
    + discriminate.
    + exfalso. revert PV. apply IHv. lia.
Qed.

(** [JSON_parse] never fails for want of budget: [None] is a syntax error. *)
Lemma JSON_parse_budget (s : string) :
  parse_value (2 * len s + 2) s <> Spent.
Proof. apply parse_budget. lia. Qed.

(** So [None] from [JSON_parse] is a syntax error: the descent rejected the
    text, or something other than white space follows the value. *)
Lemma JSON_parse_None (s : string) :
  JSON_parse s = None ->
  parse_value (2 * len s + 2) s = Bad
  \/ exists v rest c r,
       parse_value (2 * len s + 2) s = Ok v rest /\ skip_ws rest = String c r.
Proof.
  unfold JSON_parse. pose proof (JSON_parse_budget s) as B.
  destruct (parse_value (2 * len s + 2) s) as [v rest | |]; [| auto | contradiction].
  destruct (skip_ws rest) as [| c r] eqn:W; [discriminate |].
  intros _. right. eauto 6.
Qed.

(** ** The embedded helpers on concrete inputs *)

Example parse_temp_payload :
  JSON_parse temp_payload = Some (VObj [("temp", VNum (Int 21))]).
Proof. reflexivity. Qed.

Example parse_nested :
  JSON_parse ("[1, -2.5e1, true, null, {" ++ quoted "a" ++ ": []}]")
  = Some (VArr [ VNum (Int 1); VNum (Dec (-25) 0); VBool true; VNull;
                 VObj [("a", VArr [])] ]).
Proof. reflexivity. Qed.

Example parse_object_keys :
  JSON_parse ("{" ++ quoted "b" ++ ":1," ++ quoted "1" ++ ":2," ++ quoted "0" ++ ":3,"
                ++ quoted "01" ++ ":4," ++ quoted "1" ++ ":5}")
  = Some (VObj [ ("0", VNum (Int 3)); ("1", VNum (Int 5)); ("b", VNum (Int 1));
                 ("01", VNum (Int 4)) ]).
Proof. reflexivity. Qed.

Example parse_rejects :
  JSON_parse "temp=21" = None /\ JSON_parse "[1,]" = None /\ JSON_parse "01" = None
  /\ JSON_parse EmptyString = None.
Proof. repeat split. Qed.

Example isEmpty_cases :
  isEmpty (VNum (Int 1)) = true /\ isEmpty (VBool true) = true
  /\ isEmpty VNull = true /\ isEmpty (VObj []) = true
  /\ isEmpty (VStr "1") = false /\ isEmpty dev1_record = false.
Proof. repeat split. Qed.

Example parseInt_cases :
  parseInt (VStr "2") = Some (Int 2) /\ parseInt (VStr " 1st") = Some (Int 1)
  /\ parseInt (VStr "0x10") = Some (Int 16) /\ parseInt (VStr "high") = Some NaN
  /\ parseInt (VArr [VNum (Int 2)]) = Some (Int 2)
  /\ parseInt unprintable_record = None.
Proof. repeat split. Qed.

(** Beyond 2^53 the integer read is rounded to the nearest binary64. *)
Example parseInt_rounds :
  parseInt (VStr "9007199254740993") = Some (Int 9007199254740992)
  /\ parseInt (VStr "9007199254740995") = Some (Int 9007199254740996).
Proof. split; vm_compute; reflexivity. Qed.

Example number_to_string_cases :
  number_to_string (Dec 15 (-1)) = "1.5"
  /\ number_to_string (Dec 150 (-2)) = "1.5"
  /\ number_to_string (Dec (-5) (-1)) = "-0.5"
  /\ number_to_string (Dec 123456 (-3)) = "123.456"
  /\ number_to_string (Dec 1 2) = "100"
  /\ number_to_string (Dec 1 (-6)) = "0.000001"
  /\ number_to_string (Dec 15 (-8)) = "1.5e-7"
  /\ number_to_string (Dec 1 (-7)) = "1e-7"
  /\ number_to_string (Dec 1 20) = "100000000000000000000"
  /\ number_to_string (Dec 1 21) = "1e+21"
  /\ number_to_string (Dec (-12) 21) = "-1.2e+22"
  /\ number_to_string (Int 1883) = "1883"
  /\ number_to_string (Dec 0 5) = "0".
Proof. repeat split. Qed.

Example ToString_cases :
  ToString (VArr [VStr "a"; VNull; VNum (Dec 15 (-1))]) = Some "a,,1.5"
  /\ ToString (VObj [("_id", VStr "dev1")]) = Some "[object Object]"
  /\ ToString VUndefined = Some "undefined"
  /\ ToString unprintable_record = None
  /\ ToString (VArr [VStr "a"; unprintable_record]) = None.
Proof. repeat split. Qed.

Example trim_cases :
  trim "  a b  " = "a b"
  /\ trim (String "194" (String "160" "x ")) = "x"
  /\ trim ("x" ++ String "226" (String "128" (String "137" EmptyString))) = "x"
  /\ trim (String "194" "x") = String "194" "x".
Proof. repeat split. Qed.

Example topic_list_trailing_comma :
  topic_list config trailing_comma_options
  = ["reekoh/data"; "reekoh/messages"; "reekoh/groupmessages"; "alerts"; EmptyString].
Proof. reflexivity. Qed.

Example topic_list_trimmed_unique :
  topic_list config
    {| Options.qos := VUndefined; Options.port := VUndefined;
       Options.data_topic := Some "data"; Options.message_topic := None;
       Options.groupmessage_topic := None;
       Options.authorized_topics := Some " alerts , data,alerts" |}
  = ["data"; "reekoh/messages"; "reekoh/groupmessages"; "alerts"].
Proof. reflexivity. Qed.

Example snapshot_registry :
  map_to_list
    (own (authorizedDevices
            (on_ready config plain_options (VArr [dev1_record; lamp_record]) initial)))
  ≡ₚ [("dev1", dev1_record); ("undefined", lamp_record)].
Proof. vm_compute. apply Permutation_swap. Qed.

(** A record stored under [__proto__] becomes what the registry inherits
    from: its property names then read as entries, and removing it changes
    nothing. *)
Example proto_record_inherited :
  proto (authorizedDevices (run initial [adddevice polluting_record]))
  = ValuePrototype polluting_record
  /\ own (authorizedDevices (run initial [adddevice polluting_record])) = ∅
  /\ get (authorizedDevices (run initial [adddevice polluting_record])) "name"
     = VStr "x"
  /\ run initial [adddevice polluting_record; removedevice polluting_record]
     = run initial [adddevice polluting_record].
Proof. repeat split. Qed.

(** A topic [__proto__] in the operator's list leaves no key. *)
Example proto_topic_dropped :
  topic_list config proto_topic_options
  = ["reekoh/data"; "reekoh/messages"; "reekoh/groupmessages"; "__proto__"; "alerts"]
  /\ size (own (authorizedTopics (new_server config proto_topic_options))) = 4%nat
  /\ authorizePublish started (new_server config proto_topic_options) dev9
       "__proto__" temp_payload
     = (false,
        [handleException
           "Device dev9 is not authorized to publish to topic __proto__. Device not registered."]).
Proof. repeat split. Qed.

(** ** isEmpty and lookups *)

(** What lodash calls non-empty: a string, an array or an object with at
    least one character, element or property. *)
Lemma isEmpty_false_inv (v : value) :
  isEmpty v = false ->
  (exists c s, v = VStr (String c s))
  \/ (exists x l, v = VArr (x :: l))
  \/ (exists p l, v = VObj (p :: l)).
Proof.
  destruct v as [| | b | n | s | l | ps]; simpl; try discriminate.
  - destruct s; [discriminate | eauto].
  - destruct l; [discriminate | eauto 6].
  - destruct ps; [discriminate | eauto 6].
Qed.

Lemma isEmpty_number (n : number) : isEmpty (VNum n) = true.
Proof. reflexivity. Qed.

Lemma lookup_own (obj : object) (k : string) : obj !! k = own obj !! k.
Proof. reflexivity. Qed.

(** On an object that inherits from [Object.prototype], a lookup is
    non-empty exactly when the own property is. *)
Lemma get_nonempty (obj : object) (k : string) :
  intact obj ->
  (isEmpty (get obj k) = false <-> exists d, obj !! k = Some d /\ isEmpty d = false).
Proof.
  unfold intact, get. rewrite lookup_own. intros ->.
  destruct (own obj !! k) as [d |] eqn:E.
  - split; [eauto | intros (d' & [= <-] & H); exact H].
  - split; [destruct (String.eqb k "__proto__"); discriminate
           | intros (d' & [=] & _)].
Qed.

Lemma isAuthorized_registered (st : State) (i : string) :
  intact (authorizedDevices st) ->
  (isAuthorized st i = true <-> registered st i).
Proof.
  intros H. unfold isAuthorized, registered. rewrite negb_true_iff.
  apply get_nonempty, H.
Qed.

(** ** Assignment and deletion *)

Lemma set_ordinary (obj : object) (k : string) (v : value) :
  k <> "__proto__" ->
  set obj k v = {| own := <[k := v]> (own obj); proto := proto obj |}.
Proof.
  intros H. unfold set. apply String.eqb_neq in H. rewrite H. reflexivity.
Qed.

(** An assignment changes the own property of no other key. *)
Lemma set_lookup_ne (obj : object) (k i : string) (v : value) :
  k <> i -> set obj k v !! i = obj !! i.
Proof.
  intros H. unfold set.
  destruct (String.eqb k "__proto__" && reaches_accessor obj).
  - destruct v; reflexivity.
  - rewrite !lookup_own. simpl. apply lookup_insert_ne, H.
Qed.

Lemma set_lookup_eq (obj : object) (k : string) (v : value) :
  k <> "__proto__" -> set obj k v !! k = Some v.
Proof.
  intros H. rewrite set_ordinary by exact H. rewrite lookup_own. simpl.
  apply lookup_insert_eq.
Qed.

Lemma set_proto (obj : object) (k : string) (v : value) :
  k <> "__proto__" -> proto (set obj k v) = proto obj.
Proof. intros H. rewrite set_ordinary by exact H. reflexivity. Qed.

(** Whatever key is assigned, an own property that results sits under that
    key and holds the value assigned, or was there before. *)
Lemma set_lookup_inv (obj : object) (k i : string) (v d : value) :
  set obj k v !! i = Some d -> (i = k /\ d = v) \/ obj !! i = Some d.
Proof.
  unfold set. destruct (String.eqb k "__proto__" && reaches_accessor obj).
  - destruct v; auto.
  - rewrite !lookup_own. simpl. destruct (decide (k = i)) as [-> | N].
    + rewrite lookup_insert_eq. intros [= <-]. auto.
    + rewrite lookup_insert_ne by exact N. auto.
Qed.

Lemma delete_lookup_eq (obj : object) (k : string) :
  delete_property obj k !! k = None.
Proof. rewrite lookup_own. simpl. apply lookup_delete_eq. Qed.

Lemma delete_lookup_ne (obj : object) (k i : string) :
  k <> i -> delete_property obj k !! i = obj !! i.
Proof. intros H. rewrite !lookup_own. simpl. apply lookup_delete_ne, H. Qed.

Lemma delete_absent (obj : object) (k : string) :
  obj !! k = None -> delete_property obj k = obj.
Proof.
  rewrite lookup_own. intros H. destruct obj as [o p]. unfold delete_property.
  simpl in *. f_equal. apply delete_id, H.
Qed.

(** ** keyBy *)

Lemma keyBy_snoc (f : value -> value) (l : list value) (x : value) :
  keyBy f (l ++ [x])
  = match keyBy f l with
    | Some result =>
        match ToString (f x) with
        | Some key => Some (set result key x)
        | None => None
        end
    | None => None
    end.
Proof. unfold keyBy. rewrite foldl_snoc. reflexivity. Qed.

(** Where every key converts and none is [__proto__], the object built
    inherits from [Object.prototype] and each key holds the last element
    that generates it. *)
Lemma keyBy_lookup (f : value -> value) (l : list value) :
  (forall r, r ∈ l -> exists k, ToString (f r) = Some k /\ k <> "__proto__") ->
  exists obj, keyBy f l = Some obj
              /\ intact obj
              /\ forall k, obj !! k = last (filter (fun r => ToString (f r) = Some k) l).
Proof.
  induction l as [| x l IH] using rev_ind; intros H.
  - exists empty_object. repeat split.
  - destruct IH as (obj & E & I & L).
    { intros r Hr. apply H. apply elem_of_app. left. exact Hr. }
    destruct (H x) as (kx & Kx & Nx).
    { apply elem_of_app. right. apply list_elem_of_singleton. reflexivity. }
    exists (set obj kx x). rewrite keyBy_snoc, E, Kx. split; [reflexivity |].
    split; [unfold intact; rewrite set_proto by exact Nx; exact I |].
    intros k. rewrite filter_app, filter_cons, filter_nil.
    destruct (decide (ToString (f x) = Some k)) as [Hk | Hk].
    + rewrite Kx in Hk. injection Hk as <-.
      rewrite set_lookup_eq by exact Nx. symmetry. apply last_snoc.
    + rewrite app_nil_r, set_lookup_ne; [apply L |].
      intros ->. apply Hk, Kx.
Qed.

(** Whatever the keys, an own property of the object built is an element
    stored under the key it generates. *)
Lemma keyBy_well_keyed (f : value -> value) (l : list value) (obj : object)
    (k : string) (d : value) :
  keyBy f l = Some obj -> obj !! k = Some d -> ToString (f d) = Some k /\ d ∈ l.
Proof.
  revert obj. induction l as [| x l IH] using rev_ind; intros obj E H.
  - injection E as <-. rewrite lookup_own in H. simpl in H.
    rewrite lookup_empty in H. discriminate.
  - rewrite keyBy_snoc in E.
    destruct (keyBy f l) as [result |]; [| discriminate].
    destruct (ToString (f x)) as [key |] eqn:Kx; [| discriminate].
    injection E as <-. apply set_lookup_inv in H as [[-> ->] | H].
    + split; [exact Kx |]. apply elem_of_app. right.
      apply list_elem_of_singleton. reflexivity.
    + destruct (IH result eq_refl H) as [H1 H2]. split; [exact H1 |].
      apply elem_of_app. left. exact H2.
Qed.

Lemma keyBy_strings_snoc (l : list string) (t : string) :
  keyBy_strings (l ++ [t]) = set (keyBy_strings l) t (VStr t).
Proof. unfold keyBy_strings. rewrite foldl_snoc. reflexivity. Qed.

(** [keyBy] on strings with the identity is [keyBy_strings]. *)
Lemma keyBy_strings_keyBy (l : list string) :
  keyBy (fun x => x) (List.map VStr l) = Some (keyBy_strings l).
Proof.
  induction l as [| t l IH] using rev_ind; [reflexivity |].
  rewrite List.map_app. simpl. rewrite keyBy_snoc, IH, keyBy_strings_snoc.
  reflexivity.
Qed.

(** The object built from strings inherits from [Object.prototype] and has
    no own property [__proto__]: the assignment of a string to that name is
    taken by the accessor, which does nothing with it. *)
Lemma keyBy_strings_intact (l : list string) :
  intact (keyBy_strings l) /\ keyBy_strings l !! "__proto__" = None.
Proof.
  induction l as [| x l [I P]] using rev_ind; [split; reflexivity |].
  rewrite keyBy_strings_snoc.
  destruct (decide (x = "__proto__")) as [-> | N].
  - unfold set, reaches_accessor. rewrite lookup_own in P. rewrite P, I.
    split; [exact I | exact P].
  - split.
    + unfold intact. rewrite set_proto by exact N. exact I.
    + rewrite set_lookup_ne by exact N. exact P.
Qed.

Lemma keyBy_strings_proto (l : list string) :
  set (keyBy_strings l) "__proto__" (VStr "__proto__") = keyBy_strings l.
Proof.
  destruct (keyBy_strings_intact l) as [I P].
  unfold set, reaches_accessor. rewrite lookup_own in P. rewrite P, I.
  reflexivity.
Qed.

(** It maps every string of the list to itself, [__proto__] apart, which
    leaves no key. *)
Lemma topics_lookup (l : list string) (t : string) :
  keyBy_strings l !! t
  = if decide (t ∈ l /\ t <> "__proto__") then Some (VStr t) else None.
Proof.
  induction l as [| x l IH] using rev_ind.
  - rewrite decide_False; [reflexivity |]. intros [H _]. inversion H.
  - rewrite keyBy_strings_snoc.
    destruct (decide (x = "__proto__")) as [-> | N].
    + rewrite keyBy_strings_proto, IH.
      destruct (decide (t ∈ l /\ t <> "__proto__")) as [[H1 H2] | H].
      * rewrite decide_True; [reflexivity |]. split; [| exact H2].
        apply elem_of_app. left. exact H1.
      * rewrite decide_False; [reflexivity |]. intros [H1 H2]. apply H.
        split; [| exact H2]. apply elem_of_app in H1 as [H1 | H1]; [exact H1 |].
        apply list_elem_of_singleton in H1. contradiction.
    + destruct (decide (x = t)) as [-> | Nt].
      * rewrite set_lookup_eq by exact N. rewrite decide_True; [reflexivity |].
        split; [| exact N]. apply elem_of_app. right.
        apply list_elem_of_singleton. reflexivity.
      * rewrite set_lookup_ne by exact Nt. rewrite IH.
        destruct (decide (t ∈ l /\ t <> "__proto__")) as [[H1 H2] | H].
        -- rewrite decide_True; [reflexivity |]. split; [| exact H2].
           apply elem_of_app. left. exact H1.
        -- rewrite decide_False; [reflexivity |]. intros [H1 H2]. apply H.
           split; [| exact H2]. apply elem_of_app in H1 as [H1 | H1]; [exact H1 |].
           apply list_elem_of_singleton in H1. congruence.
Qed.

(** ** The device registry under add and remove events *)

Lemma valid_nonempty (device : value) : valid device = true -> isEmpty device = false.
Proof.
  unfold valid. intros H. apply andb_true_iff in H as [H _].
  apply negb_true_iff in H. exact H.
Qed.

Lemma on_adddevice_valid (st : State) (device : value) (k : string) :
  valid device = true ->
  key_of device = Some k ->
  on_adddevice st device
  = ({| authorizedDevices := set (authorizedDevices st) k device;
        server := server st; port := port st; qos := qos st |},
     [ log ("Successfully added " ++ k ++ " to the pool of authorized devices.") ],
     Returned).
Proof.
  intros V K. unfold on_adddevice. fold (valid device). rewrite V.
  unfold key_of in K. rewrite K. reflexivity.
Qed.

Lemma on_removedevice_valid (st : State) (device : value) (k : string) :
  valid device = true ->
  key_of device = Some k ->
  on_removedevice st device
  = ({| authorizedDevices := delete_property (authorizedDevices st) k;
        server := server st; port := port st; qos := qos st |},
     [ log ("Successfully removed " ++ k ++ " from the pool of authorized devices.") ],
     Returned).
Proof.
  intros V K. unfold on_removedevice. fold (valid device). rewrite V.
  unfold key_of in K. rewrite K. reflexivity.
Qed.

(** A valid record whose identity cannot be converted to a string: the key
    conversion throws before the registry is touched or anything is
    logged. *)
Lemma on_adddevice_unprintable_key (st : State) (device : value) :
  valid device = true ->
  key_of device = None ->
  on_adddevice st device = (st, [], Thrown conversion_error).
Proof.
  intros V K. unfold on_adddevice. fold (valid device). rewrite V.
  unfold key_of in K. rewrite K. reflexivity.
Qed.

Lemma on_removedevice_unprintable_key (st : State) (device : value) :
  valid device = true ->
  key_of device = None ->
  on_removedevice st device = (st, [], Thrown conversion_error).
Proof.
  intros V K. unfold on_removedevice. fold (valid device). rewrite V.
  unfold key_of in K. rewrite K. reflexivity.
Qed.

Lemma on_adddevice_invalid (st : State) (device : value) :
  valid device = false ->
  on_adddevice st device
  = match ToString device with
    | Some text =>
        (st,
         [handleException ("Device data invalid. Device not added. " ++ text)],
         Returned)
    | None => (st, [], Thrown conversion_error)
    end.
Proof.
  intros H. unfold on_adddevice. fold (valid device). rewrite H. reflexivity.
Qed.

Lemma on_removedevice_invalid (st : State) (device : value) :
  valid device = false ->
  on_removedevice st device
  = match ToString device with
    | Some text =>
        (st,
         [handleException ("Device data invalid. Device not removed. " ++ text)],
         Returned)
    | None => (st, [], Thrown conversion_error)
    end.
Proof.
  intros H. unfold on_removedevice. fold (valid device). rewrite H. reflexivity.
Qed.

Lemma invalid_cases (device : value) :
  isEmpty device = true \/ isEmpty (member device "_id") = true ->
  valid device = false.
Proof.
  unfold valid. intros [-> | ->]; [reflexivity | apply andb_false_r].
Qed.

(** An event whose record is not valid, or whose key conversion throws,
    leaves the state as it is. *)
Lemma handle_ignored (st : State) (ev : event) :
  valid (device_of ev) = false \/ key_of (device_of ev) = None ->
  handle st ev = st.
Proof.
  intros H. destruct ev as [device | device]; simpl in H; unfold handle;
    destruct (valid device) eqn:V.
  - destruct H as [H | H]; [discriminate |].
    rewrite on_adddevice_unprintable_key by assumption. reflexivity.
  - rewrite on_adddevice_invalid by exact V. destruct (ToString device); reflexivity.
  - destruct H as [H | H]; [discriminate |].
    rewrite on_removedevice_unprintable_key by assumption. reflexivity.
  - rewrite on_removedevice_invalid by exact V. destruct (ToString device); reflexivity.
Qed.

Lemma handle_add (st : State) (device : value) (k : string) :
  valid device = true ->
  key_of device = Some k ->
  handle st (adddevice device)
  = {| authorizedDevices := set (authorizedDevices st) k device;
       server := server st; port := port st; qos := qos st |}.
Proof.
  intros V K. unfold handle. rewrite (on_adddevice_valid st device k V K).
  reflexivity.
Qed.

Lemma handle_remove (st : State) (device : value) (k : string) :
  valid device = true ->
  key_of device = Some k ->
  handle st (removedevice device)
  = {| authorizedDevices := delete_property (authorizedDevices st) k;
       server := server st; port := port st; qos := qos st |}.
Proof.
  intros V K. unfold handle. rewrite (on_removedevice_valid st device k V K).
  reflexivity.
Qed.

(** Every event is either ignored or acts on the one key its record
    denotes. *)
Lemma handle_cases (st : State) (ev : event) :
  handle st ev = st
  \/ exists k, valid (device_of ev) = true
               /\ key_of (device_of ev) = Some k
               /\ handle st ev
                  = {| authorizedDevices :=
                         match ev with
                         | adddevice device => set (authorizedDevices st) k device
                         | removedevice _ => delete_property (authorizedDevices st) k
                         end;
                       server := server st; port := port st; qos := qos st |}.
Proof.
  destruct (valid (device_of ev)) eqn:V;
    [| left; apply handle_ignored; left; exact V].
  destruct (key_of (device_of ev)) as [k |] eqn:K;
    [| left; apply handle_ignored; right; exact K].
  right. exists k. split; [reflexivity |]. split; [reflexivity |].
  destruct ev as [device | device]; simpl in V, K.
  - apply handle_add; assumption.
  - apply handle_remove; assumption.
Qed.

Lemma concerns_key (i : string) (ev : event) (k : string) :
  valid (device_of ev) = true ->
  key_of (device_of ev) = Some k ->
  concerns i ev = String.eqb k i.
Proof.
  intros V K. destruct ev as [device | device]; simpl in *; rewrite V, K;
    reflexivity.
Qed.

(** The registry events leave the broker, the port and the quality of
    service alone. *)
Lemma handle_settings (st : State) (ev : event) :
  server (handle st ev) = server st
  /\ port (handle st ev) = port st
  /\ qos (handle st ev) = qos st.
Proof.
  destruct (handle_cases st ev) as [-> | (k & _ & _ & ->)]; repeat split.
Qed.

(** An event that does not concern [i] leaves the own entry of [i] as it
    is. *)
Lemma handle_other (st : State) (ev : event) (i : string) :
  concerns i ev = false ->
  authorizedDevices (handle st ev) !! i = authorizedDevices st !! i.
Proof.
  intros H. destruct (handle_cases st ev) as [-> | (k & V & K & ->)];
    [reflexivity |].
  rewrite (concerns_key i ev k V K) in H. apply String.eqb_neq in H.
  cbn [authorizedDevices]. destruct ev as [device | device].
  - apply set_lookup_ne, H.
  - apply delete_lookup_ne, H.
Qed.

(** An event that concerns [i] decides the own entry of [i], for every
    identity but [__proto__]. *)
Lemma handle_concerned (st : State) (ev : event) (i : string) :
  i <> "__proto__" ->
  concerns i ev = true ->
  authorizedDevices (handle st ev) !! i
  = match ev with
    | adddevice device => Some device
    | removedevice _ => None
    end.
Proof.
  intros N H.
  assert (valid (device_of ev) = true /\ key_of (device_of ev) = Some i) as [V K].
  { destruct ev as [device | device]; simpl in *;
      apply andb_true_iff in H as [V K];
      (split; [exact V |]);
      destruct (key_of device) as [k |]; try discriminate;
      apply String.eqb_eq in K; subst k; reflexivity. }
  destruct ev as [device | device]; simpl in V, K.
  - rewrite (handle_add st device i V K). cbn [authorizedDevices].
    apply set_lookup_eq, N.
  - rewrite (handle_remove st device i V K). cbn [authorizedDevices].
    apply delete_lookup_eq.
Qed.

(** An event that is not a valid one for [__proto__] leaves what the
    registry inherits from as it is. *)
Lemma handle_proto (st : State) (ev : event) :
  concerns "__proto__" ev = false ->
  proto (authorizedDevices (handle st ev)) = proto (authorizedDevices st).
Proof.
  intros H. destruct (handle_cases st ev) as [-> | (k & V & K & ->)];
    [reflexivity |].
  rewrite (concerns_key _ ev k V K) in H. apply String.eqb_neq in H.
  cbn [authorizedDevices]. destruct ev as [device | device].
  - apply set_proto, H.
  - reflexivity.
Qed.

Lemma run_snoc (st : State) (evs : list event) (ev : event) :
  run st (evs ++ [ev]) = handle (run st evs) ev.
Proof. unfold run. rewrite foldl_snoc. reflexivity. Qed.

Lemma ordinary_snoc (evs : list event) (ev : event) :
  ordinary (evs ++ [ev]) <-> ordinary evs /\ concerns "__proto__" ev = false.
Proof.
  unfold ordinary. rewrite Forall_app, Forall_singleton. reflexivity.
Qed.

(** The own entry of [i] after a sequence of events: what the last event
    that concerns [i] left, or the entry it had at the start. *)
Lemma run_lookup (st : State) (evs : list event) (i : string) :
  i <> "__proto__" ->
  authorizedDevices (run st evs) !! i
  = match last_event_for i evs with
    | Some (adddevice device) => Some device
    | Some (removedevice _) => None
    | None => authorizedDevices st !! i
    end.
Proof.
  intros N. unfold last_event_for.
  induction evs as [| ev evs IH] using rev_ind.
  - reflexivity.
  - rewrite run_snoc, filter_app, filter_cons, filter_nil.
    destruct (decide (concerns i ev = true)) as [C | C].
    + rewrite last_snoc. rewrite handle_concerned by assumption.
      destruct ev; reflexivity.
    + rewrite app_nil_r. apply not_true_is_false in C.
      rewrite handle_other by exact C. exact IH.
Qed.

(** A sequence with no valid event for [__proto__] leaves what the registry
    inherits from, and its own entry of that name, as they were. *)
Lemma run_ordinary (st : State) (evs : list event) :
  ordinary evs ->
  proto (authorizedDevices (run st evs)) = proto (authorizedDevices st)
  /\ authorizedDevices (run st evs) !! "__proto__"
     = authorizedDevices st !! "__proto__"
  /\ last_event_for "__proto__" evs = None.
Proof.
  unfold last_event_for.
  induction evs as [| ev evs IH] using rev_ind; intros H.
  - repeat split.
  - apply ordinary_snoc in H as [H C]. destruct (IH H) as (I1 & I2 & I3).
    rewrite run_snoc, filter_app, filter_cons, filter_nil.
    rewrite handle_proto, handle_other by exact C.
    rewrite decide_False by (rewrite C; discriminate).
    rewrite app_nil_r. auto.
Qed.

Lemma last_event_for_concerns (i : string) (evs : list event) (ev : event) :
  last_event_for i evs = Some ev -> concerns i ev = true.
Proof.
  unfold last_event_for. intros H. apply last_Some in H as [l' Hl'].
  assert (ev ∈ filter (fun ev => concerns i ev = true) evs) as Hin
    by (rewrite Hl'; set_solver).
  apply list_elem_of_filter in Hin as [HP _]. exact HP.
Qed.

(** The registry events store valid records only, which are not empty. *)
Lemma handle_records_nonempty (st : State) (ev : event) :
  records_nonempty st -> records_nonempty (handle st ev).
Proof.
  intros Hst. destruct (handle_cases st ev) as [-> | (k & V & K & ->)];
    [exact Hst |].
  intros i d. cbn [authorizedDevices]. destruct ev as [device | device].
  - intros H. apply set_lookup_inv in H as [[_ ->] | H].
    + apply valid_nonempty, V.
    + apply (Hst i d H).
  - rewrite !lookup_own. cbn [own delete_property]. intros H.
    apply lookup_delete_Some in H as [_ H]. apply (Hst i d H).
Qed.

Lemma run_records_nonempty (st : State) (evs : list event) :
  records_nonempty st -> records_nonempty (run st evs).
Proof.
  intros Hst. induction evs as [| ev evs IH] using rev_ind; [exact Hst |].
  rewrite run_snoc. apply handle_records_nonempty, IH.
Qed.

Lemma initial_records_nonempty : records_nonempty initial.
Proof. intros k d. rewrite lookup_own. simpl. rewrite lookup_empty. discriminate. Qed.

(** Where every record is non-empty, being registered is being present. *)
Lemma registered_present (st : State) (i : string) :
  records_nonempty st -> (registered st i <-> present st i).
Proof.
  intros Hst. unfold registered, present. split.
  - intros (d & Hd & _). eauto.
  - intros [d Hd]. eauto.
Qed.

(** From the freshly loaded module, an identity other than [__proto__] is
    present after a sequence of events exactly when the last event that
    concerns it is an add. *)
Lemma present_iff_last_add (evs : list event) (i : string) :
  i <> "__proto__" ->
  (present (run initial evs) i
   <-> exists device, last_event_for i evs = Some (adddevice device)).
Proof.
  intros N. unfold present. rewrite run_lookup by exact N.
  rewrite (lookup_own (authorizedDevices initial)). simpl. rewrite lookup_empty.
  destruct (last_event_for i evs) as [[device | device] |].
  - split; eauto.
  - split; [intros [x Hx]; discriminate | intros [x Hx]; discriminate].
  - split; [intros [x Hx]; discriminate | intros [x Hx]; discriminate].
Qed.

(** Where no valid event is for [__proto__], the hooks' test on an identity
    holds exactly when the last event that concerns the identity is an
    add. *)
Lemma authorized_iff_last_add (evs : list event) (i : string) :
  ordinary evs ->
  (isAuthorized (run initial evs) i = true
   <-> exists device, last_event_for i evs = Some (adddevice device)).
Proof.
  intros O. destruct (run_ordinary initial evs O) as (P & L & E).
  rewrite isAuthorized_registered by exact P.
  rewrite registered_present
    by apply run_records_nonempty, initial_records_nonempty.
  destruct (decide (i = "__proto__")) as [-> | N].
  - unfold present. rewrite L, E. split.
    + intros [x Hx]. discriminate.
    + intros [x Hx]. discriminate.
  - apply present_iff_last_add, N.
Qed.

(** C3.  The registry is a plain object, and a record whose identity is the
    text [__proto__] is not stored in it: the assignment makes the record
    what the registry inherits from.  Every non-empty field of that record
    then answers the hooks' test as a registered identity, though no event
    was ever processed for it, and a remove event for the record does not
    undo it. *)
Theorem proto_record_authorizes_its_fields (props : list (string * value))
    (i : string) (v : value) :
  assoc "_id" props = Some (VStr "__proto__") ->
  assoc i props = Some v ->
  isEmpty v = false ->
  i <> "__proto__" ->
  last_event_for i [adddevice (VObj props)] = None
  /\ isAuthorized (run initial [adddevice (VObj props)]) i = true
  /\ last_event_for i [adddevice (VObj props); removedevice (VObj props)] = None
  /\ isAuthorized
       (run initial [adddevice (VObj props); removedevice (VObj props)]) i = true.
Proof.
  intros Hid Hi Hv N.
  assert (valid (VObj props) = true) as V.
  { unfold valid. simpl. rewrite Hid. destruct props; [discriminate | reflexivity]. }
  assert (key_of (VObj props) = Some "__proto__") as K.
  { unfold key_of. simpl. rewrite Hid. reflexivity. }
  assert (concerns i (adddevice (VObj props)) = false) as C1.
  { rewrite (concerns_key i (adddevice (VObj props)) "__proto__" V K).
    apply String.eqb_neq. congruence. }
  assert (concerns i (removedevice (VObj props)) = false) as C2.
  { rewrite (concerns_key i (removedevice (VObj props)) "__proto__" V K).
    apply String.eqb_neq. congruence. }
  assert (run initial [adddevice (VObj props)]
          = {| authorizedDevices :=
                 {| own := ∅; proto := ValuePrototype (VObj props) |};
               server := None; port := VUndefined; qos := VUndefined |}) as R1.
  { change (run initial [adddevice (VObj props)])
      with (handle initial (adddevice (VObj props))).
    rewrite (handle_add _ _ _ V K). reflexivity. }
  assert (run initial [adddevice (VObj props); removedevice (VObj props)]
          = run initial [adddevice (VObj props)]) as R2.
  { change [adddevice (VObj props); removedevice (VObj props)]
      with ([adddevice (VObj props)] ++ [removedevice (VObj props)])%list.
    rewrite run_snoc, (handle_remove _ _ _ V K), R1. reflexivity. }
  assert (isAuthorized (run initial [adddevice (VObj props)]) i = true) as A.
  { rewrite R1. unfold isAuthorized, get. simpl. rewrite lookup_empty, Hi, Hv.
    reflexivity. }
  unfold last_event_for. simpl filter.
  rewrite !filter_cons, filter_nil, C1, C2.
  rewrite !decide_False by discriminate.
  rewrite R2. auto.
Qed.

Lemma proto_record_authorizes_its_fields_witness :
  last_event_for "name" [adddevice polluting_record] = None
  /\ isAuthorized (run initial [adddevice polluting_record]) "name" = true
  /\ last_event_for "name"
       [adddevice polluting_record; removedevice polluting_record] = None
  /\ isAuthorized
       (run initial [adddevice polluting_record; removedevice polluting_record])
       "name" = true.
Proof.
  apply (proto_record_authorizes_its_fields
           [("_id", VStr "__proto__"); ("name", VStr "x")] "name" (VStr "x"));
    [reflexivity | reflexivity | reflexivity | discriminate].
Defined.

(** The identity [__proto__] itself stays authorized after its record has
    been removed. *)
Example proto_identity_survives_removal :
  last_event_for "__proto__"
    [adddevice polluting_record; removedevice polluting_record]
  = Some (removedevice polluting_record)
  /\ isAuthorized
       (run initial [adddevice polluting_record; removedevice polluting_record])
       "__proto__" = true.
Proof. split; reflexivity. Qed.

(** A device with a non-empty identity that is added and not removed
    afterwards is authorized. *)
Lemma added_not_removed_authorized (evs1 evs2 : list event) (device : value)
    (k : string) :
  valid device = true ->
  key_of device = Some k ->
  ordinary (evs1 ++ adddevice device :: evs2) ->
  (forall d, removedevice d ∈ evs2 -> concerns k (removedevice d) = false) ->
  isAuthorized (run initial (evs1 ++ adddevice device :: evs2)) k = true.
Proof.
  intros V K O Hno. apply authorized_iff_last_add; [exact O |].
  unfold last_event_for. rewrite filter_app, filter_cons.
  assert (concerns k (adddevice device) = true) as C.
  { rewrite (concerns_key k (adddevice device) k V K). apply String.eqb_refl. }
  rewrite decide_True by exact C.
  destruct (last (filter (fun ev => concerns k ev = true) evs2))
    as [ev |] eqn:E.
  - rewrite last_app_cons, last_cons, E.
    apply last_Some in E as [l' Hl'].
    assert (ev ∈ filter (fun ev => concerns k ev = true) evs2) as Hin
      by (rewrite Hl'; set_solver).
    apply list_elem_of_filter in Hin as [HC Hin].
    destruct ev as [d | d]; [eauto |].
    rewrite (Hno d Hin) in HC. discriminate.
  - rewrite last_app_cons, last_cons, E. eauto.
Qed.

(** A device that is removed, and not added again afterwards, is not
    authorized, whatever came before. *)
Lemma removed_not_authorized (evs1 evs2 : list event) (device : value)
    (k : string) :
  valid device = true ->
  key_of device = Some k ->
  ordinary (evs1 ++ removedevice device :: evs2) ->
  (forall d, adddevice d ∈ evs2 -> concerns k (adddevice d) = false) ->
  isAuthorized (run initial (evs1 ++ removedevice device :: evs2)) k = false.
Proof.
  intros V K O Hno. apply not_true_is_false. intros HA.
  apply authorized_iff_last_add in HA as [d Hd]; [| exact O].
  unfold last_event_for in Hd. rewrite filter_app, filter_cons in Hd.
  assert (concerns k (removedevice device) = true) as C.
  { rewrite (concerns_key k (removedevice device) k V K). apply String.eqb_refl. }
  rewrite decide_True in Hd by exact C.
  rewrite last_app_cons, last_cons in Hd.
  destruct (last (filter (fun ev => concerns k ev = true) evs2))
    as [ev |] eqn:E; [| discriminate].
  injection Hd as ->.
  apply last_Some in E as [l' Hl'].
  assert (adddevice d ∈ filter (fun ev => concerns k ev = true) evs2)
    as Hin by (rewrite Hl'; set_solver).
  apply list_elem_of_filter in Hin as [HC Hin].
  rewrite (Hno d Hin) in HC. discriminate.
Qed.

(** An add-device event whose record is empty, or whose identity field is
    empty, never changes the state, however the handler ends. *)
Lemma adddevice_invalid_state (st : State) (device : value) :
  isEmpty device = true \/ isEmpty (member device "_id") = true ->
  fst (fst (on_adddevice st device)) = st.
Proof.
  intros H. rewrite on_adddevice_invalid by (apply invalid_cases, H).
  destruct (ToString device); reflexivity.
Qed.

(** Where the record can be converted to a string, the validation failure
    is reported through [handleException] with that text. *)
Lemma adddevice_invalid_reported (st : State) (device : value) (text : string) :
  isEmpty device = true \/ isEmpty (member device "_id") = true ->
  ToString device = Some text ->
  on_adddevice st device
  = (st, [handleException ("Device data invalid. Device not added. " ++ text)],
     Returned).
Proof.
  intros H T. rewrite on_adddevice_invalid by (apply invalid_cases, H).
  rewrite T. reflexivity.
Qed.

(** C8.  The validation failure is reported with the record written into
    the message.  For a record that cannot be converted to a string, such as
    one whose [toString] field is a number, building the message throws a
    TypeError: the handler ends without having called [handleException], and
    the state is as it was. *)
Theorem adddevice_unprintable_not_reported (st : State) (device : value) :
  isEmpty device = true \/ isEmpty (member device "_id") = true ->
  ToString device = None ->
  on_adddevice st device = (st, [], Thrown conversion_error).
Proof.
  intros H T. rewrite on_adddevice_invalid by (apply invalid_cases, H).
  rewrite T. reflexivity.
Qed.

Lemma adddevice_unprintable_not_reported_witness :
  isEmpty (member unprintable_record "_id") = true
  /\ ToString unprintable_record = None
  /\ on_adddevice with_dev1 unprintable_record
     = (with_dev1, [], Thrown conversion_error).
Proof.
  split; [reflexivity |]. split; [reflexivity |].
  apply (adddevice_unprintable_not_reported with_dev1 unprintable_record);
    [right; reflexivity | reflexivity].
Defined.

(** ** The registry built from the snapshot of the ready event *)

(** A record with no identity field is keyed by the text [undefined]. *)
Lemma key_of_missing_identity (r : value) :
  member r "_id" = VUndefined -> key_of r = Some "undefined".
Proof. unfold key_of. intros ->. reflexivity. Qed.

(** [keyBy] returns exactly when every key can be converted. *)
Lemma keyBy_returns (f : value -> value) (l : list value) :
  is_Some (keyBy f l) <-> forall r, r ∈ l -> is_Some (ToString (f r)).
Proof.
  induction l as [| x l IH] using rev_ind.
  - split; [intros _ r Hr; inversion Hr | intros _; eexists; reflexivity].
  - rewrite keyBy_snoc. split.
    + intros [obj H] r Hr.
      destruct (keyBy f l) as [result |] eqn:E; [| discriminate].
      destruct (ToString (f x)) as [key |] eqn:Kx; [| discriminate].
      apply elem_of_app in Hr as [Hr | Hr].
      * apply IH; [eexists; reflexivity | exact Hr].
      * apply list_elem_of_singleton in Hr. subst r. rewrite Kx. eexists; reflexivity.
    + intros H.
      destruct IH as [_ IH]. destruct IH as [result ->].
      { intros r Hr. apply H, elem_of_app. left. exact Hr. }
      destruct (H x) as [key ->].
      { apply elem_of_app. right. apply list_elem_of_singleton. reflexivity. }
      eexists; reflexivity.
Qed.

(** The object [keyBy] returns, where no key is [__proto__]. *)
Lemma keyBy_ordinary (f : value -> value) (l : list value) (obj : object) :
  keyBy f l = Some obj ->
  (forall r, r ∈ l -> ToString (f r) <> Some "__proto__") ->
  intact obj
  /\ forall k, obj !! k = last (filter (fun r => ToString (f r) = Some k) l).
Proof.
  intros E H.
  destruct (keyBy_lookup f l) as (obj' & E' & I & L).
  - intros r Hr.
    assert (is_Some (ToString (f r))) as [k Hk].
    { apply (keyBy_returns f l); [eexists; exact E | exact Hr]. }
    exists k. split; [exact Hk |]. intros ->. apply (H r Hr Hk).
  - rewrite E in E'. injection E' as <-. split; assumption.
Qed.

(** The three ways the ready handler ends. *)
Lemma ready_cases (config : Config.t) (options : Options.t)
    (registeredDevices : value) (st : State) :
  (snd (ready config options registeredDevices st) = Thrown conversion_error
   /\ authorizedDevices (on_ready config options registeredDevices st)
      = authorizedDevices st
   /\ server (on_ready config options registeredDevices st) = server st)
  \/ (snd (ready config options registeredDevices st) = Returned
      /\ server (on_ready config options registeredDevices st)
         = Some (new_server config options)
      /\ port (on_ready config options registeredDevices st) = Options.port options
      /\ if isEmpty registeredDevices
         then authorizedDevices (on_ready config options registeredDevices st)
              = authorizedDevices st
         else keyBy (property "_id") (elements registeredDevices)
              = Some (authorizedDevices
                        (on_ready config options registeredDevices st))).
Proof.
  unfold on_ready, ready.
  destruct (if strict_eq_zero (Options.qos options) || isEmpty (Options.qos options)
            then Some (Int 0) else parseInt (Options.qos options)) as [level |];
    [| left; repeat split].
  destruct (isEmpty registeredDevices); cbn [negb].
  - right. repeat split.
  - destruct (keyBy (property "_id") (elements registeredDevices)) as [devices |].
    + right. repeat split.
    + left. repeat split.
Qed.




(** A second ready event with a non-empty snapshot would leave the same
    registry whatever the first one had stored. *)
Lemma ready_replaces (config : Config.t) (options : Options.t)
    (snapshot : value) (st st' : State) :
  isEmpty snapshot = false ->
  snd (ready config options snapshot st) = Returned ->
  authorizedDevices (on_ready config options snapshot st)
  = authorizedDevices (on_ready config options snapshot st').
Proof.
  intros H R.
  destruct (ready_cases config options snapshot st) as [[T _] | (_ & _ & _ & C)];
    [rewrite R in T; discriminate |].
  destruct (ready_cases config options snapshot st') as [(T & _) | (_ & _ & _ & C')].
  - exfalso. revert R T. unfold ready.
    destruct (if strict_eq_zero (Options.qos options) || isEmpty (Options.qos options)
              then Some (Int 0) else parseInt (Options.qos options)) as [level |];
      [| discriminate].
    rewrite H. cbn [negb].
    destruct (keyBy (property "_id") (elements snapshot)); discriminate.
  - rewrite H in C, C'. rewrite C in C'. injection C' as ->. reflexivity.
Qed.

(** A snapshot record keyed [__proto__] is not stored: the registry inherits
    from it. *)
Example ready_proto_record :
  own (authorizedDevices
         (on_ready config plain_options (VArr [polluting_record]) initial)) = ∅
  /\ isAuthorized (on_ready config plain_options (VArr [polluting_record]) initial)
       "name" = true.
Proof. split; reflexivity. Qed.

(** A snapshot record whose identity cannot be converted stops the handler:
    the quality of service has been assigned, the registry, the port and the
    broker have not. *)
Example ready_unprintable_identity :
  ready config plain_options (VArr [dev1_record; unprintable_id_record]) initial
  = ({| authorizedDevices := empty_object; server := None; port := VUndefined;
        qos := VNum (Int 0) |},
     Thrown conversion_error).
Proof. reflexivity. Qed.

(** ** Topic access control *)

(** The Authorized Topic Set of the broker is the list the ready handler
    builds, the topic [__proto__] apart. *)
Lemma authorized_topic_set_list (config : Config.t) (options : Options.t)
    (t : string) :
  t ∈ authorized_topic_set (new_server config options)
  <-> t ∈ topic_list config options /\ t <> "__proto__".
Proof.
  unfold authorized_topic_set. rewrite elem_of_dom. cbn [authorizedTopics new_server].
  rewrite <- lookup_own, topics_lookup.
  destruct (decide (t ∈ topic_list config options /\ t <> "__proto__")) as [Hin | Hin].
  - split; eauto.
  - split; [intros [x Hx]; discriminate | intros H; contradiction].
Qed.

Lemma topic_nonempty_entry (config : Config.t) (options : Options.t) (t : string) :
  isEmpty (get (authorizedTopics (new_server config options)) t) = false
  <-> t ∈ authorized_topic_set (new_server config options) /\ t <> "".
Proof.
  rewrite authorized_topic_set_list. cbn [authorizedTopics new_server].
  destruct (keyBy_strings_intact (topic_list config options)) as [I _].
  rewrite get_nonempty by exact I. rewrite topics_lookup.
  destruct (decide (t ∈ topic_list config options /\ t <> "__proto__")) as [Hin | Hin].
  - split.
    + intros (d & [= <-] & Hd). split; [exact Hin |]. intros ->. discriminate.
    + intros [_ Hne]. exists (VStr t). split; [reflexivity |].
      destruct t; [contradiction | reflexivity].
  - split; [intros (d & [=] & _) | intros [H _]; contradiction].
Qed.




(** C2, as the code has it.  While the registry inherits from
    [Object.prototype], the forward hook answers yes exactly when the
    client's identity has a non-empty record in the registry; for a client
    with none the answer is no, also when the packet is on the client's own
    topic or on a topic of the Authorized Topic Set. *)
Theorem authorize_forward (st : State) (client : Client) (packet : Publication.t) :
  intact (authorizedDevices st) ->
  (fst (authorizeForward st client packet) = true <-> registered st (id client))
  /\ (forall srv : Server,
        ~ registered st (id client) ->
        Publication.topic packet = id client
        \/ Publication.topic packet ∈ authorized_topic_set srv ->
        fst (authorizeForward st client packet) = false).
Proof.
  intros I.
  assert (fst (authorizeForward st client packet) = true <-> registered st (id client))
    as H by apply (isAuthorized_registered _ _ I).
  split; [exact H |].
  intros srv Hn _. apply not_true_is_false. rewrite H. exact Hn.
Qed.

Lemma authorize_forward_witness :
  intact (authorizedDevices with_dev1)
  /\ (fst (authorizeForward with_dev1 dev1 (on_topic "reekoh/data" temp_payload)) = true
      <-> registered with_dev1 (id dev1))
  /\ fst (authorizeForward with_dev1 dev1 (on_topic "reekoh/data" temp_payload)) = true.
Proof.
  split; [reflexivity |].
  destruct (authorize_forward with_dev1 dev1 (on_topic "reekoh/data" temp_payload))
    as [H _]; [reflexivity |].
  split; [exact H | reflexivity].
Defined.

(** C2 fails as stated: after a ready event whose snapshot holds one empty
    record, the identity [undefined] is present in the registry and the
    forward hook refuses it. *)
Lemma present_identity_refused :
  present started_with_empty_record (id undefined_client)
  /\ fst (authorizeForward started_with_empty_record undefined_client
            (on_topic "reekoh/data" temp_payload)) = false.
Proof. split; [eexists; reflexivity | reflexivity]. Qed.

(** In every state reached from the freshly loaded module by add and remove
    events, having a non-empty record and being present are the same. *)
Lemma run_registered_present (evs : list event) (i : string) :
  registered (run initial evs) i <-> present (run initial evs) i.
Proof.
  apply registered_present, run_records_nonempty, initial_records_nonempty.
Qed.

(** The events from the freshly loaded module keep the registry inheriting
    from [Object.prototype] as long as none is a valid one for
    [__proto__]. *)
Lemma run_intact (evs : list event) :
  ordinary evs -> intact (authorizedDevices (run initial evs)).
Proof.
  intros O. destruct (run_ordinary initial evs O) as (P & _ & _). exact P.
Qed.

(** ** The router of published payloads *)

(** C5, as the code has it.  A publication on the data topic whose payload
    parses to a document that [isEmpty] calls non-empty, that is a string, an
    array or an object with at least one character, element or property,
    makes the router call [processData] with the client's identity and the
    raw payload, then publish [Data Received] on the topic named by the
    client's identity at the configured quality of service, not retained,
    then log the record. *)
Theorem telemetry_dispatched (st : State) (srv : Server)
    (message : Publication.t) (client : Client) (data : value) :
  Publication.topic message = dataTopic srv ->
  JSON_parse (Publication.payload message) = Some data ->
  isEmpty data = false ->
  on_published st srv message client
  = ([ processData (id client) (Publication.payload message);
       server_publish
         {| Packet.topic := VStr (id client);
            Packet.payload := VStr "Data Received";
            Packet.messageId := VUndefined;
            Packet.qos := qos st;
            Packet.retain := false |};
       log_json
         (VObj [ ("title", VStr "MQTT Gateway - Data Received.");
                 ("device", VStr (id client));
                 ("data", data) ]) ],
     Returned).
Proof.
  intros Ht Hp He. unfold on_published.
  rewrite Ht, String.eqb_refl, Hp, He. reflexivity.
Qed.

Lemma telemetry_dispatched_witness :
  on_published started broker (on_topic "reekoh/data" temp_payload) dev1
  = ([ processData "dev1" temp_payload;
       server_publish
         {| Packet.topic := VStr "dev1";
            Packet.payload := VStr "Data Received";
            Packet.messageId := VUndefined;
            Packet.qos := VNum (Int 0);
            Packet.retain := false |};
       log_json
         (VObj [ ("title", VStr "MQTT Gateway - Data Received.");
                 ("device", VStr "dev1");
                 ("data", VObj [("temp", VNum (Int 21))]) ]) ],
     Returned).
Proof.
  apply (telemetry_dispatched started broker (on_topic "reekoh/data" temp_payload)
           dev1 (VObj [("temp", VNum (Int 21))])); reflexivity.
Defined.

(** C5 fails as stated: the payload [7] on the data topic parses to a JSON
    document that is not empty, the number 7, and the router refuses it.  The
    only call is [handleException]: nothing goes to [processData] and nothing
    is published. *)
Lemma number_telemetry_not_dispatched :
  JSON_parse "7" = Some (VNum (Int 7))
  /\ on_published started broker (on_topic "reekoh/data" "7") dev1
     = ([handleException
           "Invalid data sent. Data must be a valid JSON String. Raw Message: 7"],
        Returned)
  /\ existsb is_processData
       (fst (on_published started broker (on_topic "reekoh/data" "7") dev1)) = false
  /\ existsb is_server_publish
       (fst (on_published started broker (on_topic "reekoh/data" "7") dev1)) = false.
Proof. repeat split. Qed.

(** C6. On the data topic, a payload that does not parse is reported with
    [platform.log] and not with [handleException]; a payload that parses to an
    empty document is reported with [handleException].  In both cases that is
    the only call: nothing goes to [processData] and nothing is published. *)
Theorem telemetry_rejected (st : State) (srv : Server)
    (message : Publication.t) (client : Client) :
  Publication.topic message = dataTopic srv ->
  (JSON_parse (Publication.payload message) = None ->
   on_published st srv message client
   = ([log_error (invalid_data_text (Publication.payload message))], Returned))
  /\ (forall data,
        JSON_parse (Publication.payload message) = Some data ->
        isEmpty data = true ->
        on_published st srv message client
        = ([handleException (invalid_data_text (Publication.payload message))], Returned))
  /\ ((JSON_parse (Publication.payload message) = None
       \/ exists data, JSON_parse (Publication.payload message) = Some data
                       /\ isEmpty data = true) ->
      existsb is_processData (fst (on_published st srv message client)) = false
      /\ existsb is_server_publish (fst (on_published st srv message client)) = false).
Proof.
  intros Ht. unfold on_published. rewrite Ht, String.eqb_refl.
  split; [| split].
  - intros ->. reflexivity.
  - intros data -> ->. reflexivity.
  - intros [-> | (data & -> & ->)]; split; reflexivity.
Qed.

Lemma telemetry_rejected_witness :
  on_published started broker (on_topic "reekoh/data" "temp=21") dev1
  = ([log_error "Invalid data sent. Data must be a valid JSON String. Raw Message: temp=21"],
     Returned)
  /\ on_published started broker (on_topic "reekoh/data" "{}") dev1
     = ([handleException "Invalid data sent. Data must be a valid JSON String. Raw Message: {}"],
        Returned).
Proof.
  split.
  - apply (telemetry_rejected started broker (on_topic "reekoh/data" "temp=21") dev1);
      reflexivity.
  - apply (telemetry_rejected started broker (on_topic "reekoh/data" "{}") dev1)
      with (data := VObj []); reflexivity.
Defined.



(** C7 at the payload [null].  The payload parses, to a document with
    neither field, and reading [msg.target] throws: the handler is left by a
    TypeError before any call, so nothing reports the required fields
    through [handleException].  The group-message branch does the same. *)
Theorem null_message_throws (st : State) (srv : Server) (client : Client) :
  messageTopic srv <> dataTopic srv ->
  groupMessageTopic srv <> dataTopic srv ->
  groupMessageTopic srv <> messageTopic srv ->
  on_published st srv (on_topic (messageTopic srv) "null") client
  = ([], Thrown "TypeError: Cannot read property 'target' of null")
  /\ on_published st srv (on_topic (groupMessageTopic srv) "null") client
     = ([], Thrown "TypeError: Cannot read property 'target' of null").
Proof.
  intros H1 H2 H3. apply String.eqb_neq in H1, H2, H3.
  unfold on_published, on_topic. cbn [Publication.topic Publication.payload].
  rewrite H1, H2, H3, !String.eqb_refl. split; reflexivity.
Qed.

Lemma null_message_throws_witness :
  JSON_parse "null" = Some VNull
  /\ on_published started broker (on_topic "reekoh/messages" "null") dev1
     = ([], Thrown "TypeError: Cannot read property 'target' of null")
  /\ on_published started broker (on_topic "reekoh/groupmessages" "null") dev1
     = ([], Thrown "TypeError: Cannot read property 'target' of null").
Proof.
  split; [reflexivity |].
  apply (null_message_throws started broker dev1); discriminate.
Defined.

(** The payload of the specification, a target with no message, is reported. *)
Lemma target_only_message_reported :
  on_published started broker (on_topic "reekoh/messages" target_only_payload) dev1
  = ([handleException invalid_message_text], Returned).
Proof. reflexivity. Qed.

(** ** Quality of service *)

(** C9 at a numeric level.  [isEmpty] answers yes on every number, so a
    quality of service sent as a number, 1 and 2 included, is replaced
    by 0. *)
Theorem numeric_qos_replaced_by_zero (config : Config.t) (options : Options.t)
    (snapshot : value) (st : State) (n : number) :
  Options.qos options = VNum n ->
  qos (on_ready config options snapshot st) = VNum (Int 0).
Proof.
  intros H. unfold on_ready, ready. rewrite H, isEmpty_number, orb_true_r.
  destruct (if negb (isEmpty snapshot)
            then keyBy (property "_id") (elements snapshot)
            else Some (authorizedDevices st)); reflexivity.
Qed.

Lemma numeric_qos_replaced_by_zero_witness :
  qos (on_ready config (with_qos (VNum (Int 1))) (VArr []) initial) = VNum (Int 0)
  /\ qos (on_ready config (with_qos (VNum (Int 2))) (VArr []) initial) = VNum (Int 0).
Proof.
  split.
  - apply (numeric_qos_replaced_by_zero config (with_qos (VNum (Int 1))) (VArr [])
             initial (Int 1)). reflexivity.
  - apply (numeric_qos_replaced_by_zero config (with_qos (VNum (Int 2))) (VArr [])
             initial (Int 2)). reflexivity.
Defined.

(** The level is kept when it comes as a string of digits, and is 0 when the
    option is absent. *)
Lemma string_qos_kept :
  qos (on_ready config (with_qos (VStr "1")) (VArr []) initial) = VNum (Int 1)
  /\ qos (on_ready config (with_qos (VStr "2")) (VArr []) initial) = VNum (Int 2)
  /\ qos (on_ready config (with_qos VUndefined) (VArr []) initial) = VNum (Int 0).
Proof. repeat split. Qed.

(** X19. Every packet the router publishes goes to the topic named by the
    sender's identity, at the quality of service of the state, not
    retained. *)
Lemma acknowledgment_qos (st : State) (srv : Server) (message : Publication.t)
    (client : Client) (packet : Packet.t) :
  server_publish packet ∈ fst (on_published st srv message client) ->
  Packet.qos packet = qos st /\ Packet.retain packet = false
  /\ Packet.topic packet = VStr (id client).
Proof.
  unfold on_published.
  repeat match goal with
         | |- context [if ?b then _ else _] => destruct b
         | |- context [match ?o with Some _ => _ | None => _ end] => destruct o
         end;
    cbn [fst]; intros H;
    repeat (apply elem_of_cons in H as [H | H]; [try discriminate |]);
    try (apply elem_of_nil in H; contradiction);
    injection H as ->; auto.
Qed.

(** ** The platform's message event *)

(** C10. Once the broker exists, a message event publishes the payload on the
    topic named by the target device at the configured quality of service,
    not retained, then answers [Message Published] for the message id and
    logs the record.  The registry is not read: any two states with a broker
    and the same quality of service make the same calls. *)
Theorem message_published (st : State) (srv : Server) (message : Message.t) :
  server st = Some srv ->
  on_message st message
  = ([ server_publish
         {| Packet.topic := Message.device message;
            Packet.payload := Message.message message;
            Packet.messageId := Message.messageId message;
            Packet.qos := qos st;
            Packet.retain := false |};
       sendMessageResponse (Message.messageId message) "Message Published";
       log_json
         (VObj [ ("title", VStr "Message Published");
                 ("device", Message.device message);
                 ("messageId", Message.messageId message);
                 ("message", Message.message message) ]) ],
     Returned)
  /\ (forall st' : State,
        is_Some (server st') -> qos st' = qos st ->
        on_message st' message = on_message st message).
Proof.
  intros Hs. unfold on_message. rewrite Hs. split; [reflexivity |].
  intros st' [srv' ->] ->. reflexivity.
Qed.

Lemma message_published_witness :
  authorizedDevices started !! "ghost" = None
  /\ on_message started ghost_message
     = ([ server_publish
            {| Packet.topic := VStr "ghost";
               Packet.payload := VStr "reboot";
               Packet.messageId := VStr "m-1";
               Packet.qos := VNum (Int 0);
               Packet.retain := false |};
          sendMessageResponse (VStr "m-1") "Message Published";
          log_json
            (VObj [ ("title", VStr "Message Published");
                    ("device", VStr "ghost");
                    ("messageId", VStr "m-1");
                    ("message", VStr "reboot") ]) ],
        Returned).
Proof.
  split; [reflexivity |].
  destruct (message_published started broker ghost_message) as [H _];
    [reflexivity | exact H].
Defined.

(** * Further properties of the handlers *)

(** ** The registry events *)

Lemma State_eq (st st' : State) :
  authorizedDevices st = authorizedDevices st' ->
  server st = server st' -> port st = port st' -> qos st = qos st' ->
  st = st'.
Proof. destruct st, st'. simpl. intros -> -> -> ->. reflexivity. Qed.

Lemma object_eq (obj obj' : object) :
  own obj = own obj' -> proto obj = proto obj' -> obj = obj'.
Proof. destruct obj, obj'. simpl. intros -> ->. reflexivity. Qed.

(** X1. A remove-device event whose record is empty, or whose identity field
    is empty, leaves the state as it was.  It reports the failure through
    [handleException] with the record written into the message; when the
    record cannot be converted to a string, building the message throws and
    nothing is reported. *)
Theorem removedevice_invalid_no_mutation (st : State) (device : value) :
  isEmpty device = true \/ isEmpty (member device "_id") = true ->
  on_removedevice st device
  = match ToString device with
    | Some text =>
        (st,
         [handleException ("Device data invalid. Device not removed. " ++ text)],
         Returned)
    | None => (st, [], Thrown conversion_error)
    end.
Proof. intros H. apply on_removedevice_invalid, invalid_cases, H. Qed.

Lemma removedevice_invalid_no_mutation_witness :
  on_removedevice with_dev1 VNull
  = (with_dev1, [handleException "Device data invalid. Device not removed. null"],
     Returned)
  /\ on_removedevice with_dev1 unprintable_record
     = (with_dev1, [], Thrown conversion_error).
Proof.
  split.
  - apply (removedevice_invalid_no_mutation with_dev1 VNull). left. reflexivity.
  - apply (removedevice_invalid_no_mutation with_dev1 unprintable_record).
    right. reflexivity.
Defined.

(** X2. Removing a device of which the registry has no own entry changes
    nothing and is logged as a success, not reported as an error. *)
Theorem removedevice_unknown_is_noop (st : State) (device : value) (k : string) :
  valid device = true ->
  key_of device = Some k ->
  authorizedDevices st !! k = None ->
  on_removedevice st device
  = (st,
     [log ("Successfully removed " ++ k ++ " from the pool of authorized devices.")],
     Returned).
Proof.
  intros V K Hn. rewrite (on_removedevice_valid st device k V K).
  rewrite (delete_absent _ _ Hn). destruct st; reflexivity.
Qed.

Lemma removedevice_unknown_is_noop_witness :
  on_removedevice started dev1_record
  = (started, [log "Successfully removed dev1 from the pool of authorized devices."],
     Returned).
Proof.
  apply (removedevice_unknown_is_noop started dev1_record "dev1"); reflexivity.
Defined.

Lemma delete_set (obj : object) (k : string) (v : value) :
  k <> "__proto__" ->
  delete_property (set obj k v) k = delete_property obj k.
Proof.
  intros N. rewrite set_ordinary by exact N. unfold delete_property. simpl.
  f_equal. apply delete_insert_eq.
Qed.

Lemma set_set (obj : object) (k : string) (v v' : value) :
  k <> "__proto__" -> set (set obj k v) k v' = set obj k v'.
Proof.
  intros N. rewrite !set_ordinary by exact N. simpl. f_equal.
  apply insert_insert_eq.
Qed.

(** X3. Adding a device and then removing it, by any valid record that
    denotes the same key, leaves the key free; when the key was free before,
    the state is the one before the addition.  The key [__proto__] is set
    apart: a record with that identity is not stored under a key. *)
Theorem add_then_remove (st : State) (device device' : value) (k : string) :
  valid device = true -> valid device' = true ->
  key_of device = Some k -> key_of device' = Some k ->
  k <> "__proto__" ->
  authorizedDevices (handle (handle st (adddevice device)) (removedevice device'))
  = delete_property (authorizedDevices st) k
  /\ (authorizedDevices st !! k = None ->
      handle (handle st (adddevice device)) (removedevice device') = st).
Proof.
  intros V V' K K' N.
  rewrite (handle_remove _ device' k V' K'), (handle_add st device k V K).
  cbn [authorizedDevices server port qos]. rewrite delete_set by exact N.
  split; [reflexivity |].
  intros Hn. rewrite (delete_absent _ _ Hn). destruct st; reflexivity.
Qed.

Lemma add_then_remove_witness :
  handle (handle started (adddevice dev1_record)) (removedevice dev1_renamed)
  = started.
Proof.
  destruct (add_then_remove started dev1_record dev1_renamed "dev1") as [_ H];
    [reflexivity | reflexivity | reflexivity | reflexivity | discriminate |].
  apply H. reflexivity.
Defined.

(** X4. Adding a device overwrites the record its key held: of two valid
    additions under one key other than [__proto__] only the second shows in
    the state. *)
Theorem add_overwrites (st : State) (device device' : value) (k : string) :
  valid device = true -> valid device' = true ->
  key_of device = Some k -> key_of device' = Some k ->
  k <> "__proto__" ->
  handle (handle st (adddevice device)) (adddevice device')
  = handle st (adddevice device').
Proof.
  intros V V' K K' N.
  rewrite (handle_add _ device' k V' K'), (handle_add st device k V K),
    (handle_add st device' k V' K').
  cbn [authorizedDevices server port qos]. rewrite set_set by exact N.
  reflexivity.
Qed.

Lemma add_overwrites_witness :
  handle (handle started (adddevice dev1_record)) (adddevice dev1_renamed)
  = handle started (adddevice dev1_renamed).
Proof.
  apply (add_overwrites started dev1_record dev1_renamed "dev1");
    [reflexivity | reflexivity | reflexivity | reflexivity | discriminate].
Defined.

(** With a record whose identity cannot be converted, the second addition
    throws and the first record stays. *)
Example add_unprintable_identity_keeps_first :
  on_adddevice with_dev1 unprintable_id_record
  = (with_dev1, [], Thrown conversion_error).
Proof. reflexivity. Qed.

Lemma concerns_other (ev : event) (i : string) :
  key_of (device_of ev) <> Some i -> concerns i ev = false.
Proof.
  intros H. destruct ev as [d | d]; simpl in *;
    apply andb_false_iff; right;
    (destruct (key_of d) as [k |]; [| reflexivity]);
    apply String.eqb_neq; congruence.
Qed.

(** What the registry answers at a key depends on the own entry of the key
    and on what the registry inherits from. *)
Lemma get_frame (obj obj' : object) (i : string) :
  obj' !! i = obj !! i -> proto obj' = proto obj -> get obj' i = get obj i.
Proof. rewrite !lookup_own. unfold get. intros -> ->. reflexivity. Qed.

(** X5. A registry event leaves the broker, the port and the quality of
    service as they are, and the own entry of every key other than the one
    its record denotes.  Unless it is an event for the key [__proto__], what
    the registry answers at every such key stays too. *)
Theorem registry_event_frame (st : State) (ev : event) :
  server (handle st ev) = server st
  /\ port (handle st ev) = port st
  /\ qos (handle st ev) = qos st
  /\ (forall i, key_of (device_of ev) <> Some i ->
        authorizedDevices (handle st ev) !! i = authorizedDevices st !! i)
  /\ (key_of (device_of ev) <> Some "__proto__" ->
      forall i, key_of (device_of ev) <> Some i ->
        get (authorizedDevices (handle st ev)) i = get (authorizedDevices st) i).
Proof.
  destruct (handle_settings st ev) as (H1 & H2 & H3).
  repeat split; try assumption.
  - intros i H. apply handle_other, concerns_other, H.
  - intros P i H. apply get_frame.
    + apply handle_other, concerns_other, H.
    + apply handle_proto, concerns_other, P.
Qed.

Lemma reaches_accessor_frame (obj obj' : object) :
  obj' !! "__proto__" = obj !! "__proto__" -> proto obj' = proto obj ->
  reaches_accessor obj' = reaches_accessor obj.
Proof. rewrite !lookup_own. unfold reaches_accessor. intros -> ->. reflexivity. Qed.

(** Assignments and deletions on different keys can be done in either
    order. *)
Lemma set_set_ne (obj : object) (k1 k2 : string) (v1 v2 : value) :
  k1 <> k2 -> set (set obj k1 v1) k2 v2 = set (set obj k2 v2) k1 v1.
Proof.
  intros N.
  assert (forall (o : object) k' v, k' <> "__proto__" ->
            reaches_accessor {| own := <[k' := v]> (own o); proto := proto o |}
            = reaches_accessor o) as RI.
  { intros o k' v Hk. apply reaches_accessor_frame; [| reflexivity].
    rewrite !lookup_own. simpl. apply lookup_insert_ne. exact Hk. }
  unfold set.
  destruct (String.eqb k1 "__proto__") eqn:E1;
    destruct (String.eqb k2 "__proto__") eqn:E2; cbn [andb].
  - apply String.eqb_eq in E1, E2. congruence.
  - pose proof (proj1 (String.eqb_neq _ _) E2) as N2.
    rewrite (RI obj k2 v2 N2).
    destruct (reaches_accessor obj).
    + destruct v1; reflexivity.
    + cbn [own proto]. f_equal. apply insert_insert_ne. congruence.
  - pose proof (proj1 (String.eqb_neq _ _) E1) as N1.
    rewrite (RI obj k1 v1 N1).
    destruct (reaches_accessor obj).
    + destruct v2; reflexivity.
    + cbn [own proto]. f_equal. apply insert_insert_ne. congruence.
  - cbn [own proto]. f_equal. apply insert_insert_ne. congruence.
Qed.

Lemma delete_set_ne (obj : object) (k1 k2 : string) (v : value) :
  k1 <> k2 ->
  delete_property (set obj k1 v) k2 = set (delete_property obj k2) k1 v.
Proof.
  intros N. unfold set.
  destruct (String.eqb k1 "__proto__") eqn:E1; cbn [andb].
  - apply String.eqb_eq in E1. subst k1.
    assert (reaches_accessor (delete_property obj k2) = reaches_accessor obj) as ->.
    { apply reaches_accessor_frame; [| reflexivity].
      apply delete_lookup_ne. congruence. }
    destruct (reaches_accessor obj).
    + destruct v; reflexivity.
    + unfold delete_property. cbn [own proto]. f_equal.
      apply delete_insert_ne. congruence.
  - unfold delete_property. cbn [own proto]. f_equal.
    apply delete_insert_ne. congruence.
Qed.

Lemma delete_delete (obj : object) (k1 k2 : string) :
  delete_property (delete_property obj k1) k2
  = delete_property (delete_property obj k2) k1.
Proof. unfold delete_property. cbn [own proto]. f_equal. apply delete_delete. Qed.

(** X6. Two registry events whose records denote different keys can be processed
    in either order. *)
Theorem registry_events_commute (st : State) (e1 e2 : event) :
  key_of (device_of e1) <> key_of (device_of e2) ->
  handle (handle st e1) e2 = handle (handle st e2) e1.
Proof.
  intros K.
  destruct (valid (device_of e1)) eqn:V1;
    [| rewrite !(handle_ignored _ e1) by (left; exact V1); reflexivity].
  destruct (valid (device_of e2)) eqn:V2;
    [| rewrite !(handle_ignored _ e2) by (left; exact V2); reflexivity].
  destruct (key_of (device_of e1)) as [k1 |] eqn:K1;
    [| rewrite !(handle_ignored _ e1) by (right; exact K1); reflexivity].
  destruct (key_of (device_of e2)) as [k2 |] eqn:K2;
    [| rewrite !(handle_ignored _ e2) by (right; exact K2); reflexivity].
  assert (k1 <> k2) as N by congruence.
  destruct e1 as [d1 | d1], e2 as [d2 | d2]; simpl in V1, V2, K1, K2.
  - rewrite !(handle_add _ d1 k1 V1 K1), !(handle_add _ d2 k2 V2 K2).
    cbn [authorizedDevices server port qos]. rewrite (set_set_ne _ k1 k2) by exact N.
    reflexivity.
  - rewrite !(handle_add _ d1 k1 V1 K1), !(handle_remove _ d2 k2 V2 K2).
    cbn [authorizedDevices server port qos]. rewrite (delete_set_ne _ k1 k2) by exact N.
    reflexivity.
  - rewrite !(handle_remove _ d1 k1 V1 K1), !(handle_add _ d2 k2 V2 K2).
    cbn [authorizedDevices server port qos].
    rewrite (delete_set_ne _ k2 k1) by congruence. reflexivity.
  - rewrite !(handle_remove _ d1 k1 V1 K1), !(handle_remove _ d2 k2 V2 K2).
    cbn [authorizedDevices server port qos]. rewrite (delete_delete _ k1 k2).
    reflexivity.
Qed.

Lemma registry_events_commute_witness :
  handle (handle started (adddevice dev1_record)) (removedevice dev2_record)
  = handle (handle started (removedevice dev2_record)) (adddevice dev1_record).
Proof.
  apply (registry_events_commute started (adddevice dev1_record)
           (removedevice dev2_record)).
  discriminate.
Defined.

(** X7. The events with an invalid record can be struck from a sequence: the
    state after it is the state after the valid ones alone. *)
Theorem invalid_events_do_nothing (st : State) (evs : list event) :
  run st evs = run st (filter (fun ev => valid (device_of ev) = true) evs).
Proof.
  revert st. induction evs as [| ev evs IH]; intros st; [reflexivity |].
  rewrite filter_cons. simpl.
  destruct (decide (valid (device_of ev) = true)) as [V | V].
  - simpl. apply IH.
  - apply not_true_is_false in V.
    change (run (handle st ev) evs
            = run st (filter (fun ev => valid (device_of ev) = true) evs)).
    rewrite handle_ignored by (left; exact V). apply IH.
Qed.

(** X25. From the freshly loaded module, after any sequence of events none
    of which is a valid event for the identity [__proto__], an identity
    answers the hooks' test, and is a key of the registry, exactly when the
    most recently processed valid event for it is an add. *)
Theorem ordinary_registry_follows_last_event (evs : list event) (i : string) :
  ordinary evs ->
  (isAuthorized (run initial evs) i = true
   <-> exists device, last_event_for i evs = Some (adddevice device))
  /\ (present (run initial evs) i
      <-> exists device, last_event_for i evs = Some (adddevice device)).
Proof.
  intros O. split; [apply authorized_iff_last_add, O |].
  destruct (decide (i = "__proto__")) as [-> | N];
    [| apply present_iff_last_add, N].
  destruct (run_ordinary initial evs O) as (_ & L & E).
  unfold present. rewrite L, E. split.
  - intros [x Hx]. discriminate.
  - intros [x Hx]. discriminate.
Qed.

Lemma ordinary_registry_follows_last_event_witness :
  isAuthorized
    (run initial
       [adddevice dev1_record; removedevice dev1_record; adddevice dev1_renamed])
    "dev1" = true
  /\ ~ present
        (run initial [adddevice dev1_record; adddevice dev2_record;
                      removedevice dev1_renamed])
        "dev1".
Proof.
  split.
  - destruct (ordinary_registry_follows_last_event
                [adddevice dev1_record; removedevice dev1_record;
                 adddevice dev1_renamed] "dev1") as [[_ H] _].
    + repeat constructor.
    + apply H. eexists. reflexivity.
  - destruct (ordinary_registry_follows_last_event
                [adddevice dev1_record; adddevice dev2_record;
                 removedevice dev1_renamed] "dev1") as [_ [H _]].
    + repeat constructor.
    + intros P. destruct (H P) as [device Hd]. discriminate.
Defined.

(** X26. A record that is not empty and whose identity is not empty, yet
    cannot be converted to a string, makes both registry handlers throw at
    the conversion of the key: the state is as it was and nothing is logged
    or reported. *)
Theorem unprintable_identity_throws (st : State) (device : value) :
  valid device = true ->
  key_of device = None ->
  on_adddevice st device = (st, [], Thrown conversion_error)
  /\ on_removedevice st device = (st, [], Thrown conversion_error).
Proof.
  intros V K. split.
  - apply on_adddevice_unprintable_key; assumption.
  - apply on_removedevice_unprintable_key; assumption.
Qed.

Lemma unprintable_identity_throws_witness :
  on_adddevice with_dev1 unprintable_id_record
  = (with_dev1, [], Thrown conversion_error)
  /\ on_removedevice with_dev1 unprintable_id_record
     = (with_dev1, [], Thrown conversion_error).
Proof.
  apply (unprintable_identity_throws with_dev1 unprintable_id_record);
    reflexivity.
Defined.

(** ** What every reachable state keeps *)

Lemma well_keyed_reachable (st : State) : reachable st -> well_keyed st.
Proof.
  induction 1 as [| config options snapshot st _ IH | st ev _ IH]; intros k d.
  - rewrite lookup_own. simpl. rewrite lookup_empty. discriminate.
  - destruct (ready_cases config options snapshot st)
      as [(_ & -> & _) | (_ & _ & _ & C)]; [apply IH |].
    destruct (isEmpty snapshot).
    + rewrite C. apply IH.
    + intros H. apply (keyBy_well_keyed _ _ _ _ _ C) in H as [H _]. exact H.
  - destruct (handle_cases st ev) as [-> | (key & V & K & ->)]; [apply IH |].
    cbn [authorizedDevices]. destruct ev as [device | device].
    + intros H. apply set_lookup_inv in H as [[-> ->] | H]; [exact K | apply IH, H].
    + rewrite !lookup_own. cbn [own delete_property]. intros H.
      apply lookup_delete_Some in H as [_ H]. apply IH, H.
Qed.

(** X8. In every state the module can reach, each record of the registry sits
    under the key its identity field denotes; so, while the registry
    inherits from [Object.prototype], a client the forward hook accepts has
    a non-empty record whose identity reads as the client's. *)
Theorem forward_accepts_own_record (st : State) (client : Client)
    (packet : Publication.t) :
  reachable st ->
  intact (authorizedDevices st) ->
  fst (authorizeForward st client packet) = true ->
  exists d, authorizedDevices st !! id client = Some d
            /\ ToString (member d "_id") = Some (id client)
            /\ isEmpty d = false.
Proof.
  intros R I H. apply well_keyed_reachable in R.
  apply (proj1 (isAuthorized_registered st (id client) I)) in H as (d & Hd & He).
  exists d. split; [exact Hd |]. split; [apply (R _ _ Hd) | exact He].
Qed.

Lemma forward_accepts_own_record_witness :
  exists d, authorizedDevices with_dev1 !! "dev1" = Some d
            /\ ToString (member d "_id") = Some "dev1"
            /\ isEmpty d = false.
Proof.
  apply (forward_accepts_own_record with_dev1 dev1 (on_topic "reekoh/data" temp_payload)).
  - apply (reachable_event started (adddevice dev1_record)).
    apply reachable_ready. apply reachable_initial.
  - reflexivity.
  - reflexivity.
Defined.

(** X9. After a ready event that returns, whose snapshot is non-empty and
    holds non-empty records only, none of them keyed [__proto__], the
    identity of every record of the snapshot is authorized, and the registry
    holds no empty record. *)
Theorem ready_authorizes_snapshot (config : Config.t) (options : Options.t)
    (snapshot : value) (st : State) :
  snd (ready config options snapshot st) = Returned ->
  isEmpty snapshot = false ->
  (forall r, r ∈ elements snapshot -> isEmpty r = false) ->
  (forall r, r ∈ elements snapshot -> key_of r <> Some "__proto__") ->
  (forall r k, r ∈ elements snapshot -> key_of r = Some k ->
     isAuthorized (on_ready config options snapshot st) k = true)
  /\ records_nonempty (on_ready config options snapshot st).
Proof.
  intros R Hs Hr Hp.
  destruct (ready_cases config options snapshot st) as [[T _] | (_ & _ & _ & C)];
    [rewrite R in T; discriminate |].
  rewrite Hs in C.
  destruct (keyBy_ordinary _ _ _ C Hp) as [I L].
  assert (records_nonempty (on_ready config options snapshot st)) as Hn.
  { intros k d H. apply (keyBy_well_keyed _ _ _ _ _ C) in H as [_ H].
    apply Hr, H. }
  split; [| exact Hn].
  intros r k Hin K. apply (isAuthorized_registered _ _ I).
  apply registered_present; [exact Hn |].
  unfold present. rewrite L.
  destruct (filter (fun r0 => ToString (property "_id" r0) = Some k)
              (elements snapshot)) as [| y t _] eqn:F using rev_ind.
  - assert (r ∈ filter (fun r0 => ToString (property "_id" r0) = Some k)
                  (elements snapshot)) as Hf
      by (apply list_elem_of_filter; split; [exact K | exact Hin]).
    rewrite F in Hf. inversion Hf.
  - rewrite last_snoc. eauto.
Qed.

Lemma ready_authorizes_snapshot_witness :
  isAuthorized (on_ready config plain_options (VArr [dev1_record; lamp_record]) initial)
    "dev1" = true
  /\ isAuthorized (on_ready config plain_options (VArr [dev1_record; lamp_record]) initial)
       "undefined" = true.
Proof.
  destruct (ready_authorizes_snapshot config plain_options
              (VArr [dev1_record; lamp_record]) initial) as [H _].
  - reflexivity.
  - reflexivity.
  - intros r Hr. simpl in Hr.
    apply elem_of_cons in Hr as [-> | Hr]; [reflexivity |].
    apply list_elem_of_singleton in Hr as ->. reflexivity.
  - intros r Hr. simpl in Hr.
    apply elem_of_cons in Hr as [-> | Hr]; [discriminate |].
    apply list_elem_of_singleton in Hr as ->. discriminate.
  - split.
    + apply (H dev1_record "dev1"); [| reflexivity].
      apply elem_of_cons. left. reflexivity.
    + apply (H lamp_record "undefined"); [| reflexivity].
      apply elem_of_cons. right. apply list_elem_of_singleton. reflexivity.
Defined.



(** ** The Authorized Topic Set *)

Lemma includes_elem_of (x : string) (l : list string) :
  includes x l = true <-> x ∈ l.
Proof.
  induction l as [| y l IH]; simpl.
  - split; [discriminate | intros H; inversion H].
  - rewrite orb_true_iff, String.eqb_eq, IH, elem_of_cons. reflexivity.
Qed.

Lemma baseUniq_elem_of (result l : list string) (x : string) :
  x ∈ baseUniq result l <-> x ∈ result \/ x ∈ l.
Proof.
  revert result. induction l as [| y l IH]; intros result; simpl.
  - split; [auto | intros [H | H]; [exact H | inversion H]].
  - destruct (includes y result) eqn:I; rewrite IH.
    + apply includes_elem_of in I. rewrite elem_of_cons.
      split; [tauto | intros [H | [-> | H]]; auto].
    + rewrite elem_of_app, list_elem_of_singleton, elem_of_cons. tauto.
Qed.

Lemma baseUniq_NoDup (result l : list string) :
  NoDup result -> NoDup (baseUniq result l).
Proof.
  revert result. induction l as [| y l IH]; intros result H; simpl; [exact H |].
  destruct (includes y result) eqn:I; apply IH; [exact H |].
  apply NoDup_app. split; [exact H |]. split.
  - intros x Hx Hy. apply list_elem_of_singleton in Hy as ->.
    apply includes_elem_of in Hx. congruence.
  - apply NoDup_singleton.
Qed.

Lemma topic_list_raw (config : Config.t) (options : Options.t) :
  topic_list config options = uniq (List.map trim (raw_topics config options)).
Proof.
  unfold topic_list, raw_topics.
  destruct (Options.authorized_topics options) as [[| c r] |]; reflexivity.
Qed.

Lemma topic_list_elem_of (config : Config.t) (options : Options.t) (t : string) :
  t ∈ topic_list config options
  <-> exists raw, raw ∈ raw_topics config options /\ t = trim raw.
Proof.
  rewrite topic_list_raw. unfold uniq. rewrite baseUniq_elem_of.
  split.
  - intros [H | H]; [inversion H |].
    apply list_elem_of_In, in_map_iff in H as (raw & <- & H).
    apply list_elem_of_In in H. eauto.
  - intros (raw & H & ->). right.
    apply list_elem_of_In, in_map_iff. exists raw.
    split; [reflexivity | apply list_elem_of_In, H].
Qed.

Lemma topic_list_NoDup (config : Config.t) (options : Options.t) :
  NoDup (topic_list config options).
Proof. rewrite topic_list_raw. apply baseUniq_NoDup, NoDup_nil_2. Qed.

(** One key for every string of a list without duplicates, [__proto__]
    apart. *)
Lemma keyBy_strings_size (l : list string) :
  NoDup l ->
  size (own (keyBy_strings l))
  = List.length (filter (fun t => t <> "__proto__") l).
Proof.
  induction l as [| x l IH] using rev_ind; intros N; [reflexivity |].
  apply NoDup_app in N as (N1 & N2 & _).
  rewrite keyBy_strings_snoc, filter_app, filter_cons, filter_nil, length_app.
  destruct (decide (x <> "__proto__")) as [Hx | Hx].
  - rewrite set_ordinary by exact Hx. cbn [own].
    rewrite map_size_insert_None.
    + rewrite IH by exact N1. simpl. lia.
    + rewrite <- lookup_own, topics_lookup. rewrite decide_False; [reflexivity |].
      intros [Hin _]. apply (N2 x Hin). apply list_elem_of_singleton. reflexivity.
  - apply dec_stable in Hx. subst x. rewrite keyBy_strings_proto.
    rewrite IH by exact N1. simpl. lia.
Qed.

(** X10. The Authorized Topic Set is the three system topics and the
    segments of the operator's comma-separated list, each with the white
    space at its ends removed; the topic [__proto__] is not among them, for
    it leaves no key in the broker's [authorizedTopics].  The list the
    handler builds has no duplicate, and the set has one key for each of its
    topics but [__proto__]. *)
Theorem authorized_topic_set_members (config : Config.t) (options : Options.t)
    (t : string) :
  (t ∈ authorized_topic_set (new_server config options)
   <-> (exists raw, raw ∈ raw_topics config options /\ t = trim raw)
       /\ t <> "__proto__")
  /\ NoDup (topic_list config options)
  /\ size (authorized_topic_set (new_server config options))
     = List.length (filter (fun t => t <> "__proto__") (topic_list config options)).
Proof.
  split; [| split].
  - rewrite authorized_topic_set_list, topic_list_elem_of. reflexivity.
  - apply topic_list_NoDup.
  - unfold authorized_topic_set. rewrite size_dom. cbn [authorizedTopics new_server].
    apply keyBy_strings_size, topic_list_NoDup.
Qed.

(** *** trim *)

Lemma string_length_ind (P : string -> Prop) :
  (forall s, (forall t, (String.length t < String.length s)%nat -> P t) -> P s) ->
  forall s, P s.
Proof.
  intros H s. remember (String.length s) as n eqn:E. revert s E.
  induction n as [n IH] using lt_wf_ind. intros s ->.
  apply H. intros t Ht. apply (IH _ Ht). reflexivity.
Qed.

Lemma skip_space_cons (a : ascii) (r : string) :
  skip_space (String a r)
  = if is_space a then skip_space r
    else
      match r with
      | String b r1 =>
          if is_space2 a b then skip_space r1
          else
            match r1 with
            | String c r2 =>
                if is_space3 a b c then skip_space r2 else String a r
            | EmptyString => String a r
            end
      | EmptyString => String a r
      end.
Proof. destruct r as [| b [| c r2]]; reflexivity. Qed.

Lemma all_space_cons (a : ascii) (r : string) :
  all_space (String a r)
  = if is_space a then all_space r
    else
      match r with
      | String b r1 =>
          if is_space2 a b then all_space r1
          else
            match r1 with
            | String c r2 => is_space3 a b c && all_space r2
            | EmptyString => false
            end
      | EmptyString => false
      end.
Proof. destruct r as [| b [| c r2]]; reflexivity. Qed.

Lemma trimEnd_cons (a : ascii) (r : string) :
  trimEnd (String a r)
  = if all_space (String a r) then EmptyString else String a (trimEnd r).
Proof. reflexivity. Qed.

Lemma skip_space_length (s : string) :
  (String.length (skip_space s) <= String.length s)%nat.
Proof.
  induction s as [s IH] using string_length_ind.
  destruct s as [| a r]; [apply Nat.le_refl |]. rewrite skip_space_cons.
  destruct (is_space a).
  { etrans; [apply IH; simpl; lia | simpl; lia]. }
  destruct r as [| b r1]; [apply Nat.le_refl |].
  destruct (is_space2 a b).
  { etrans; [apply IH; simpl; lia | simpl; lia]. }
  destruct r1 as [| c r2]; [apply Nat.le_refl |].
  destruct (is_space3 a b c); [| apply Nat.le_refl].
  etrans; [apply IH; simpl; lia | simpl; lia].
Qed.

(** A string that [skip_space] leaves as it is does not begin with white
    space, and conversely. *)
Lemma skip_space_fixed (s : string) :
  skip_space s = s
  <-> match s with
      | String a r =>
          is_space a = false
          /\ match r with
             | String b r1 =>
                 is_space2 a b = false
                 /\ match r1 with
                    | String c _ => is_space3 a b c = false
                    | EmptyString => True
                    end
             | EmptyString => True
             end
      | EmptyString => True
      end.
Proof.
  assert (forall r t, (String.length r < String.length t)%nat -> skip_space r <> t)
    as Short.
  { intros r t L E. pose proof (skip_space_length r) as H. rewrite E in H. lia. }
  destruct s as [| a r]; [split; reflexivity |]. rewrite skip_space_cons.
  destruct (is_space a).
  { split; [intros H; apply Short in H; [contradiction | simpl; lia]
           | intros [H _]; discriminate]. }
  destruct r as [| b r1]; [split; auto |].
  destruct (is_space2 a b).
  { split; [intros H; apply Short in H; [contradiction | simpl; lia]
           | intros (_ & H & _); discriminate]. }
  destruct r1 as [| c r2]; [split; auto |].
  destruct (is_space3 a b c).
  { split; [intros H; apply Short in H; [contradiction | simpl; lia]
           | intros (_ & _ & H); discriminate]. }
  split; auto.
Qed.

Lemma skip_space_idempotent (s : string) :
  skip_space (skip_space s) = skip_space s.
Proof.
  induction s as [s IH] using string_length_ind.
  destruct s as [| a r]; [reflexivity |]. rewrite (skip_space_cons a r).
  destruct (is_space a) eqn:Ea.
  { apply IH. simpl. lia. }
  destruct r as [| b r1].
  { rewrite skip_space_cons, Ea. reflexivity. }
  destruct (is_space2 a b) eqn:Eb.
  { apply IH. simpl. lia. }
  destruct r1 as [| c r2].
  { rewrite skip_space_cons, Ea, Eb. reflexivity. }
  destruct (is_space3 a b c) eqn:Ec.
  { apply IH. simpl. lia. }
  rewrite skip_space_cons, Ea, Eb, Ec. reflexivity.
Qed.

(** White space followed by anything is white space when what follows
    is. *)
Lemma all_space_app (w t : string) :
  all_space w = true -> all_space (w ++ t) = all_space t.
Proof.
  induction w as [w IH] using string_length_ind.
  destruct w as [| a r]; [reflexivity |]. rewrite all_space_cons.
  change (String a r ++ t) with (String a (r ++ t)). rewrite all_space_cons.
  destruct (is_space a).
  { intros H. apply IH; [simpl; lia | exact H]. }
  destruct r as [| b r1]; [discriminate |].
  change (String b r1 ++ t) with (String b (r1 ++ t)). cbv beta iota.
  destruct (is_space2 a b).
  { intros H. apply IH; [simpl; lia | exact H]. }
  destruct r1 as [| c r2]; [discriminate |].
  change (String c r2 ++ t) with (String c (r2 ++ t)). cbv beta iota.
  intros H. apply andb_true_iff in H as [-> H]. cbn [andb].
  apply IH; [simpl; lia | exact H].
Qed.

(** What [trimEnd] removes is white space. *)
Lemma trimEnd_split (s : string) :
  exists w, s = trimEnd s ++ w /\ all_space w = true.
Proof.
  induction s as [| a r (w & E & W)]; [exists EmptyString; split; reflexivity |].
  rewrite trimEnd_cons. destruct (all_space (String a r)) eqn:A.
  - exists (String a r). split; [reflexivity | exact A].
  - exists w. split; [| exact W].
    change (String a (trimEnd r) ++ w) with (String a (trimEnd r ++ w)).
    rewrite <- E. reflexivity.
Qed.

Lemma trimEnd_idempotent (s : string) : trimEnd (trimEnd s) = trimEnd s.
Proof.
  induction s as [| a r IH]; [reflexivity |].
  rewrite trimEnd_cons. destruct (all_space (String a r)) eqn:A; [reflexivity |].
  rewrite trimEnd_cons. destruct (all_space (String a (trimEnd r))) eqn:A'.
  - destruct (trimEnd_split r) as (w & E & W).
    pose proof (all_space_app (String a (trimEnd r)) w A') as H.
    change (String a (trimEnd r) ++ w) with (String a (trimEnd r ++ w)) in H.
    rewrite <- E, A, W in H. discriminate.
  - rewrite IH. reflexivity.
Qed.

(** A string that does not begin with white space still does not once its
    end is trimmed. *)
Lemma skip_space_trimEnd (s : string) :
  skip_space s = s -> skip_space (trimEnd s) = trimEnd s.
Proof.
  intros H. apply skip_space_fixed in H. apply skip_space_fixed.
  destruct s as [| a r]; [exact I |].
  rewrite trimEnd_cons. destruct (all_space (String a r)); [exact I |].
  destruct H as [Ha H]. split; [exact Ha |].
  destruct r as [| b r1]; [exact I |].
  rewrite trimEnd_cons. destruct (all_space (String b r1)); [exact I |].
  destruct H as [Hb H]. split; [exact Hb |].
  destruct r1 as [| c r2]; [exact I |].
  rewrite trimEnd_cons. destruct (all_space (String c r2)); [exact I | exact H].
Qed.

Lemma trim_idempotent (s : string) : trim (trim s) = trim s.
Proof.
  unfold trim.
  rewrite (skip_space_trimEnd (skip_space s)) by apply skip_space_idempotent.
  apply trimEnd_idempotent.
Qed.

Lemma authorized_topic_trimmed (config : Config.t) (options : Options.t)
    (t : string) :
  t ∈ authorized_topic_set (new_server config options) -> trim t = t.
Proof.
  rewrite authorized_topic_set_list, topic_list_elem_of.
  intros [(raw & _ & ->) _]. apply trim_idempotent.
Qed.

(** X11. Every collected topic, once trimmed, if anything is left of it and
    it is not [__proto__], is open to every client for publishing and
    subscribing, registered or not, and no report is made. *)
Theorem collected_topic_open_to_all (config : Config.t) (options : Options.t)
    (st : State) (client : Client) (raw payload : string) :
  raw ∈ raw_topics config options ->
  trim raw <> EmptyString ->
  trim raw <> "__proto__" ->
  authorizePublish st (new_server config options) client (trim raw) payload
  = (true, [])
  /\ authorizeSubscribe st (new_server config options) client (trim raw)
     = (true, []).
Proof.
  intros Hin Hne Hp.
  assert (isEmpty (get (authorizedTopics (new_server config options)) (trim raw))
          = false) as H.
  { apply topic_nonempty_entry. split; [| exact Hne].
    apply authorized_topic_set_list. split; [| exact Hp].
    apply topic_list_elem_of. eauto. }
  unfold authorizePublish, authorizeSubscribe. rewrite H. simpl.
  rewrite !orb_true_r. split; reflexivity.
Qed.

Lemma collected_topic_open_to_all_witness :
  authorizePublish started (new_server config spaced_options) dev9 "status" temp_payload
  = (true, [])
  /\ authorizeSubscribe started (new_server config spaced_options) dev9 "status"
     = (true, []).
Proof.
  apply (collected_topic_open_to_all config spaced_options started dev9
           " status" temp_payload).
  - apply elem_of_app. right. simpl. apply elem_of_cons. right.
    apply list_elem_of_singleton. reflexivity.
  - discriminate.
  - discriminate.
Defined.

(** X12. A topic with white space at either end is never in the Authorized
    Topic Set: a client that the registry does not authorize is refused on
    it, unless it is the client's own identity. *)
Theorem untrimmed_topic_refused (config : Config.t) (options : Options.t)
    (st : State) (client : Client) (topic payload : string) :
  trim topic <> topic ->
  isAuthorized st (id client) = false ->
  topic <> id client ->
  fst (authorizePublish st (new_server config options) client topic payload) = false
  /\ fst (authorizeSubscribe st (new_server config options) client topic) = false.
Proof.
  intros Ht Hn Hid.
  assert (isEmpty (get (authorizedTopics (new_server config options)) topic) = true)
    as H.
  { apply not_false_is_true. intros F. apply topic_nonempty_entry in F as [F _].
    apply authorized_topic_trimmed in F. contradiction. }
  unfold authorizePublish, authorizeSubscribe. cbn [fst].
  unfold isAuthorized in Hn. rewrite Hn, H. apply String.eqb_neq in Hid.
  rewrite Hid. split; reflexivity.
Qed.

Lemma untrimmed_topic_refused_witness :
  fst (authorizePublish started (new_server config spaced_options) dev9
         " alerts " temp_payload) = false
  /\ fst (authorizeSubscribe started (new_server config spaced_options) dev9
            " alerts ") = false.
Proof.
  apply (untrimmed_topic_refused config spaced_options started dev9 " alerts "
           temp_payload); [discriminate | reflexivity | discriminate].
Defined.

(** X28. The topic [__proto__] is never opened by the configuration: listed
    by the operator or not, a client that the registry does not authorize,
    and whose identity is not that text, is refused on it by both hooks, and
    the refusal is reported. *)
Theorem proto_topic_never_opened (config : Config.t) (options : Options.t)
    (st : State) (client : Client) (payload : string) :
  isAuthorized st (id client) = false ->
  id client <> "__proto__" ->
  authorizePublish st (new_server config options) client "__proto__" payload
  = (false,
     [ handleException
         ("Device " ++ id client ++ " is not authorized to publish to topic "
            ++ "__proto__" ++ ". Device not registered.") ])
  /\ authorizeSubscribe st (new_server config options) client "__proto__"
     = (false,
        [ handleException
            ("Device " ++ id client ++ " is not authorized to subscribe to topic "
               ++ "__proto__" ++ ". Device not registered.") ]).
Proof.
  intros Hn Hid.
  assert (isEmpty (get (authorizedTopics (new_server config options)) "__proto__")
          = true) as H.
  { apply not_false_is_true. intros F. apply topic_nonempty_entry in F as [F _].
    apply authorized_topic_set_list in F as [_ F]. contradiction. }
  assert (String.eqb "__proto__" (id client) = false) as E
    by (apply String.eqb_neq; congruence).
  unfold authorizePublish, authorizeSubscribe.
  unfold isAuthorized in Hn. rewrite Hn, H, E. split; reflexivity.
Qed.

Lemma proto_topic_never_opened_witness :
  fst (authorizePublish started (new_server config proto_topic_options) dev9
         "__proto__" temp_payload) = false
  /\ fst (authorizeSubscribe started (new_server config proto_topic_options) dev9
            "__proto__") = false.
Proof.
  destruct (proto_topic_never_opened config proto_topic_options started dev9
              temp_payload) as [H1 H2]; [reflexivity | discriminate |].
  rewrite H1, H2. split; reflexivity.
Defined.

(** ** The hooks against each other *)

(** X13. A client may always publish and subscribe on the topic named by its own
    identity, whatever the registry and the broker's topics hold, and no
    report is made. *)
Theorem own_topic_always_allowed (st : State) (srv : Server) (client : Client)
    (payload : string) :
  authorizePublish st srv client (id client) payload = (true, [])
  /\ authorizeSubscribe st srv client (id client) = (true, []).
Proof.
  unfold authorizePublish, authorizeSubscribe. rewrite String.eqb_refl.
  rewrite !orb_true_r. simpl. split; reflexivity.
Qed.

(** X14. Whoever may forward may publish and subscribe on every topic: the forward
    hook is the strictest of the three. *)
Theorem forward_implies_publish_subscribe (st : State) (srv : Server)
    (client : Client) (packet : Publication.t) (topic payload : string) :
  fst (authorizeForward st client packet) = true ->
  authorizeForward st client packet = (true, [])
  /\ authorizePublish st srv client topic payload = (true, [])
  /\ authorizeSubscribe st srv client topic = (true, []).
Proof.
  unfold authorizeForward, authorizePublish, authorizeSubscribe. cbn [fst].
  intros ->. repeat split.
Qed.

Lemma forward_implies_publish_subscribe_witness :
  authorizeForward with_dev1 dev1 (on_topic "lobby" temp_payload) = (true, [])
  /\ authorizePublish with_dev1 broker dev1 "lobby" temp_payload = (true, [])
  /\ authorizeSubscribe with_dev1 broker dev1 "lobby" = (true, []).
Proof.
  apply (forward_implies_publish_subscribe with_dev1 broker dev1
           (on_topic "lobby" temp_payload) "lobby" temp_payload).
  reflexivity.
Defined.

(** ** The router, further *)

Lemma member_nonempty_not_nullish (msg : value) (k : string) :
  isEmpty (member msg k) = false -> nullish msg = false.
Proof. destruct msg; simpl; try reflexivity; discriminate. Qed.

(** X15. A publication on the direct-message topic whose payload parses to a
    document with a non-empty [target] and a non-empty [message] is handed to
    device messaging with those two values, acknowledged with
    [Device Message Received] on the sender's own topic, then logged. *)
Theorem direct_message_dispatched (st : State) (srv : Server)
    (message : Publication.t) (client : Client) (msg : value) :
  Publication.topic message = messageTopic srv ->
  messageTopic srv <> dataTopic srv ->
  JSON_parse (Publication.payload message) = Some msg ->
  isEmpty (member msg "target") = false ->
  isEmpty (member msg "message") = false ->
  on_published st srv message client
  = ([ sendMessageToDevice (member msg "target") (member msg "message");
       server_publish
         {| Packet.topic := VStr (id client);
            Packet.payload := VStr "Device Message Received";
            Packet.messageId := VUndefined;
            Packet.qos := qos st;
            Packet.retain := false |};
       log_json
         (VObj [ ("title", VStr "MQTT Gateway - Message Sent.");
                 ("source", VStr (id client));
                 ("target", member msg "target");
                 ("message", msg) ]) ],
     Returned).
Proof.
  intros Ht Hne Hp H1 H2. unfold on_published. rewrite Ht.
  apply String.eqb_neq in Hne. rewrite Hne, String.eqb_refl, Hp.
  rewrite (member_nonempty_not_nullish msg "target" H1), H1, H2. reflexivity.
Qed.

Lemma direct_message_dispatched_witness :
  on_published started broker (on_topic "reekoh/messages" direct_payload) dev1
  = ([ sendMessageToDevice (VStr "dev2") (VStr "on");
       server_publish
         {| Packet.topic := VStr "dev1";
            Packet.payload := VStr "Device Message Received";
            Packet.messageId := VUndefined;
            Packet.qos := VNum (Int 0);
            Packet.retain := false |};
       log_json
         (VObj [ ("title", VStr "MQTT Gateway - Message Sent.");
                 ("source", VStr "dev1");
                 ("target", VStr "dev2");
                 ("message", direct_document) ]) ],
     Returned).
Proof.
  apply (direct_message_dispatched started broker
           (on_topic "reekoh/messages" direct_payload) dev1 direct_document);
    try reflexivity.
  discriminate.
Defined.

(** X16. A publication on the group-message topic whose payload parses to a
    document with a non-empty [target] and a non-empty [message] is handed to
    group messaging with those two values, acknowledged with
    [Group Message Received] on the sender's own topic, then logged. *)
Theorem group_message_dispatched (st : State) (srv : Server)
    (message : Publication.t) (client : Client) (msg : value) :
  Publication.topic message = groupMessageTopic srv ->
  groupMessageTopic srv <> dataTopic srv ->
  groupMessageTopic srv <> messageTopic srv ->
  JSON_parse (Publication.payload message) = Some msg ->
  isEmpty (member msg "target") = false ->
  isEmpty (member msg "message") = false ->
  on_published st srv message client
  = ([ sendMessageToGroup (member msg "target") (member msg "message");
       server_publish
         {| Packet.topic := VStr (id client);
            Packet.payload := VStr "Group Message Received";
            Packet.messageId := VUndefined;
            Packet.qos := qos st;
            Packet.retain := false |};
       log_json
         (VObj [ ("title", VStr "MQTT Gateway - Group Message Sent.");
                 ("source", VStr (id client));
                 ("target", member msg "target");
                 ("message", msg) ]) ],
     Returned).
Proof.
  intros Ht Hd Hm Hp H1 H2. unfold on_published. rewrite Ht.
  apply String.eqb_neq in Hd, Hm. rewrite Hd, Hm, String.eqb_refl, Hp.
  rewrite (member_nonempty_not_nullish msg "target" H1), H1, H2. reflexivity.
Qed.

Lemma group_message_dispatched_witness :
  on_published started broker (on_topic "reekoh/groupmessages" direct_payload) dev1
  = ([ sendMessageToGroup (VStr "dev2") (VStr "on");
       server_publish
         {| Packet.topic := VStr "dev1";
            Packet.payload := VStr "Group Message Received";
            Packet.messageId := VUndefined;
            Packet.qos := VNum (Int 0);
            Packet.retain := false |};
       log_json
         (VObj [ ("title", VStr "MQTT Gateway - Group Message Sent.");
                 ("source", VStr "dev1");
                 ("target", VStr "dev2");
                 ("message", direct_document) ]) ],
     Returned).
Proof.
  apply (group_message_dispatched started broker
           (on_topic "reekoh/groupmessages" direct_payload) dev1 direct_document);
    try reflexivity; discriminate.
Defined.



Lemma acknowledgment_qos_witness :
  Packet.qos
    {| Packet.topic := VStr "dev1"; Packet.payload := VStr "Data Received";
       Packet.messageId := VUndefined; Packet.qos := VNum (Int 0);
       Packet.retain := false |} = qos started
  /\ Packet.retain
       {| Packet.topic := VStr "dev1"; Packet.payload := VStr "Data Received";
          Packet.messageId := VUndefined; Packet.qos := VNum (Int 0);
          Packet.retain := false |} = false
  /\ Packet.topic
       {| Packet.topic := VStr "dev1"; Packet.payload := VStr "Data Received";
          Packet.messageId := VUndefined; Packet.qos := VNum (Int 0);
          Packet.retain := false |} = VStr (id dev1).
Proof.
  apply (acknowledgment_qos started broker (on_topic "reekoh/data" temp_payload) dev1).
  apply elem_of_cons. right. apply elem_of_cons. left. reflexivity.
Defined.

(** X20. Whatever is published, on whatever topic: the router makes at most one
    dispatch, it publishes an acknowledgment exactly when it dispatches, and
    when the callback throws nothing has been called. *)
Theorem one_acknowledgment_per_dispatch (st : State) (srv : Server)
    (message : Publication.t) (client : Client) :
  List.length (List.filter is_dispatch (fst (on_published st srv message client)))
  = List.length (List.filter is_server_publish
                   (fst (on_published st srv message client)))
  /\ (List.length (List.filter is_dispatch
                     (fst (on_published st srv message client))) <= 1)%nat
  /\ (snd (on_published st srv message client) <> Returned ->
      fst (on_published st srv message client) = []).
Proof.
  unfold on_published.
  repeat match goal with
         | |- context [if ?b then _ else _] => destruct b
         | |- context [match ?o with Some _ => _ | None => _ end] => destruct o
         end;
    cbn; repeat split; try lia; intros H; try reflexivity; contradiction.
Qed.

(** ** The quality of service given as text *)

Lemma pretty_N_char_digit (d : N) :
  (d < 10)%N ->
  is_digit (pretty_N_char d) = true /\ digit_val (pretty_N_char d) = Z.of_N d.
Proof.
  intros H.
  assert (d = 0 \/ d = 1 \/ d = 2 \/ d = 3 \/ d = 4 \/ d = 5 \/ d = 6 \/ d = 7
          \/ d = 8 \/ d = 9)%N as C by lia.
  repeat (destruct C as [-> | C]; [split; reflexivity |]). subst. split; reflexivity.
Qed.

Lemma read_digits_pretty_go (x : N) :
  exists k : nat,
    ((0 < x)%N -> (0 < k)%nat)
    /\ forall s acc n,
         read_digits acc n (pretty_N_go x s)
         = read_digits (acc * 10 ^ Z.of_nat k + Z.of_N x) (n + k) s.
Proof.
  induction (N.lt_wf_0 x) as [x _ IH].
  destruct (decide (x = 0)%N) as [-> | Hx].
  - exists 0%nat. split; [lia |]. intros s acc n. rewrite pretty_N_go_0.
    f_equal; [simpl; lia | lia].
  - assert (0 < x)%N as Hpos by lia.
    destruct (IH (x `div` 10)%N) as (k & _ & Hk); [apply N.div_lt; lia |].
    exists (S k). split; [lia |]. intros s acc n.
    rewrite pretty_N_go_step by exact Hpos. rewrite Hk. simpl.
    destruct (pretty_N_char_digit (x `mod` 10)%N) as [D V];
      [apply N.mod_lt; lia |].
    rewrite D, V. f_equal; [| lia].
    rewrite Nat2Z.inj_succ, Z.pow_succ_r by lia.
    pose proof (N.div_mod x 10 ltac:(lia)) as E.
    rewrite N2Z.inj_div, N2Z.inj_mod in *.
    assert (Z.of_N x = 10 * (Z.of_N x / 10) + Z.of_N x mod 10) as E'.
    { apply Z.div_mod. lia. }
    change (Z.of_N 10) with 10. lia.
Qed.

Lemma append_snoc (a : string) (c : ascii) (s : string) :
  a ++ String c s = (a ++ String c EmptyString) ++ s.
Proof.
  induction a as [| b r IH]; [reflexivity |].
  change (String b (r ++ String c s) = String b ((r ++ String c EmptyString) ++ s)).
  f_equal. exact IH.
Qed.

Lemma all_digits_snoc (a : string) (c : ascii) :
  all_digits a = true -> is_digit c = true ->
  all_digits (a ++ String c EmptyString) = true.
Proof.
  intros A D. induction a as [| b r IH].
  - change (is_digit c && true = true). rewrite D. reflexivity.
  - change (is_digit b && all_digits (r ++ String c EmptyString) = true).
    simpl in A. apply andb_true_iff in A as [-> A]. simpl. apply IH, A.
Qed.

Lemma pretty_go_digits (x : N) (s : string) :
  exists ds, pretty_N_go x s = ds ++ s /\ all_digits ds = true
             /\ ((0 < x)%N -> ds <> EmptyString).
Proof.
  revert s. induction (N.lt_wf_0 x) as [x _ IH]. intros s.
  destruct (decide (x = 0)%N) as [-> | Hx].
  - exists EmptyString. rewrite pretty_N_go_0. repeat split. lia.
  - assert (0 < x)%N as Hpos by lia.
    rewrite pretty_N_go_step by exact Hpos.
    destruct (IH (x `div` 10)%N ltac:(apply N.div_lt; lia)
                (String (pretty_N_char (x `mod` 10)) s)) as (ds & E & A & _).
    exists (ds ++ String (pretty_N_char (x `mod` 10)) EmptyString).
    split; [| split].
    + rewrite E. apply append_snoc.
    + apply all_digits_snoc; [exact A |].
      apply pretty_N_char_digit, N.mod_lt. lia.
    + intros _. destruct ds; discriminate.
Qed.

Lemma digit_not_marker (c : ascii) :
  is_digit c = true ->
  is_space c = false
  /\ (forall b, is_space2 c b = false)
  /\ (forall b d, is_space3 c b d = false)
  /\ Ascii.eqb c "-" = false /\ Ascii.eqb c "+" = false
  /\ Ascii.eqb c "x" = false /\ Ascii.eqb c "X" = false.
Proof.
  destruct c as [[] [] [] [] [] [] [] []]; intros H; vm_compute in H;
    try discriminate; repeat split; intros; reflexivity.
Qed.

(** A string of digits does not begin with white space. *)
Lemma skip_space_digits (c : ascii) (r : string) :
  is_digit c = true -> skip_space (String c r) = String c r.
Proof.
  intros D. destruct (digit_not_marker c D) as (S1 & S2 & S3 & _).
  apply skip_space_fixed. split; [exact S1 |].
  destruct r as [| b r1]; [exact I |]. split; [apply S2 |].
  destruct r1 as [| d r2]; [exact I | apply S3].
Qed.

Lemma skip_space_minus (c : ascii) (r : string) :
  is_digit c = true ->
  skip_space (String "-" (String c r)) = String "-" (String c r).
Proof.
  intros D. apply skip_space_fixed. split; [reflexivity |].
  split; [reflexivity |]. destruct r as [| d r2]; [exact I | reflexivity].
Qed.

Lemma parseInt_digits (neg : bool) (ds : string) :
  all_digits ds = true -> ds <> EmptyString ->
  parseInt_string ((if neg then "-" else EmptyString) ++ ds)
  = match read_digits 0 0 ds with
    | (_, O, _) => NaN
    | (z, _, _) => integer_number neg z
    end.
Proof.
  intros A Hne. destruct ds as [| c r]; [contradiction |].
  simpl in A. apply andb_true_iff in A as [D A].
  destruct (digit_not_marker c D) as (_ & _ & _ & M & P & _).
  assert (forall b : bool,
            match String c r with
            | String c0 (String c1 r0) =>
                if Ascii.eqb c0 "0" && (Ascii.eqb c1 "x" || Ascii.eqb c1 "X") then
                  match read_hex 0 0 r0 with
                  | (_, O) => NaN
                  | (z, _) => integer_number b z
                  end
                else
                  match read_digits 0 0 (String c r) with
                  | (_, O, _) => NaN
                  | (z, _, _) => integer_number b z
                  end
            | _ =>
                match read_digits 0 0 (String c r) with
                | (_, O, _) => NaN
                | (z, _, _) => integer_number b z
                end
            end
            = match read_digits 0 0 (String c r) with
              | (_, O, _) => NaN
              | (z, _, _) => integer_number b z
              end) as Hex.
  { intros b. destruct r as [| c1 r0]; [reflexivity |].
    simpl in A. apply andb_true_iff in A as [D1 _].
    destruct (digit_not_marker c1 D1) as (_ & _ & _ & _ & _ & X1 & X2).
    rewrite X1, X2, andb_false_r. reflexivity. }
  destruct neg.
  - change ("-" ++ String c r) with (String "-" (String c r)).
    unfold parseInt_string. rewrite (skip_space_minus c r D).
    exact (Hex true).
  - change (EmptyString ++ String c r) with (String c r).
    unfold parseInt_string. rewrite (skip_space_digits c r D).
    rewrite M, P. exact (Hex false).
Qed.

(** The decimal text of a positive integer: digits, at least one, that read
    back as the integer. *)
Lemma pretty_pos_digits (p : positive) :
  all_digits (pretty (Z.pos p)) = true
  /\ pretty (Z.pos p) <> EmptyString
  /\ exists k, read_digits 0 0 (pretty (Z.pos p)) = (Z.pos p, S k, EmptyString).
Proof.
  unfold pretty, pretty_Z, pretty, pretty_positive, pretty, pretty_N.
  rewrite decide_False by discriminate.
  destruct (pretty_go_digits (N.pos p) EmptyString) as (ds & E & A & Hne).
  destruct (read_digits_pretty_go (N.pos p)) as (k & Hk & R).
  assert (pretty_N_go (N.pos p) EmptyString = ds) as E'.
  { rewrite E. clear. induction ds as [| c r IH]; [reflexivity |].
    change (String c (r ++ EmptyString) = String c r). f_equal. exact IH. }
  rewrite E'. split; [exact A |]. split; [apply Hne; lia |].
  destruct k as [| k]; [specialize (Hk ltac:(lia)); lia |].
  exists k. rewrite <- E', R. simpl. reflexivity.
Qed.

(** Below 2^53 every integer is a binary64 number. *)
Lemma integer_number_exact (neg : bool) (a : Z) :
  a < 2 ^ 53 -> integer_number neg a = Int (if neg then - a else a).
Proof.
  intros H. unfold integer_number, round_binary64.
  apply Z.ltb_lt in H. rewrite H. reflexivity.
Qed.

(** [parseInt] reads back the decimal text of every integer that is exact in
    binary64. *)
Lemma parseInt_pretty (z : Z) :
  Z.abs z < 2 ^ 53 -> parseInt (VStr (pretty z)) = Some (Int z).
Proof.
  intros B. unfold parseInt. cbn [ToString]. f_equal.
  destruct z as [| p | p].
  - reflexivity.
  - destruct (pretty_pos_digits p) as (A & Hne & k & R).
    etrans; [exact (parseInt_digits false _ A Hne) |]. rewrite R.
    apply (integer_number_exact false). exact B.
  - destruct (pretty_pos_digits p) as (A & Hne & k & R).
    change (pretty (Z.neg p)) with ("-" ++ pretty (Z.pos p)).
    etrans; [exact (parseInt_digits true _ A Hne) |]. rewrite R.
    apply (integer_number_exact true). exact B.
Qed.

Lemma pretty_nonempty (z : Z) : isEmpty (VStr (pretty z)) = false.
Proof.
  destruct z as [| p | p].
  - reflexivity.
  - destruct (pretty_pos_digits p) as (_ & Hne & _).
    destruct (pretty (Z.pos p)); [contradiction | reflexivity].
  - reflexivity.
Qed.

(** X22. A quality of service that comes as the decimal text of an integer
    below 2^53 in size is taken as that integer, whatever it is: the handler
    does not check that the level is 0, 1 or 2. *)
Theorem textual_qos_taken_as_is (config : Config.t) (options : Options.t)
    (snapshot : value) (st : State) (z : Z) :
  Options.qos options = VStr (pretty z) ->
  Z.abs z < 2 ^ 53 ->
  qos (on_ready config options snapshot st) = VNum (Int z).
Proof.
  intros H B. unfold on_ready, ready. rewrite H, pretty_nonempty.
  cbn [strict_eq_zero orb]. rewrite (parseInt_pretty z B).
  destruct (if negb (isEmpty snapshot)
            then keyBy (property "_id") (elements snapshot)
            else Some (authorizedDevices st)); reflexivity.
Qed.

Lemma textual_qos_taken_as_is_witness :
  qos (on_ready config (with_qos (VStr "2")) (VArr []) initial) = VNum (Int 2)
  /\ qos (on_ready config (with_qos (VStr "7")) (VArr []) initial) = VNum (Int 7)
  /\ qos (on_ready config (with_qos (VStr "-1")) (VArr []) initial) = VNum (Int (-1)).
Proof.
  split; [| split].
  - apply (textual_qos_taken_as_is config (with_qos (VStr "2")) (VArr []) initial 2);
      reflexivity.
  - apply (textual_qos_taken_as_is config (with_qos (VStr "7")) (VArr []) initial 7);
      reflexivity.
  - apply (textual_qos_taken_as_is config (with_qos (VStr "-1")) (VArr []) initial (-1));
      reflexivity.
Defined.

(** Beyond 2^53 the level is the binary64 number nearest to the text, and a
    level that cannot be converted to a string stops the handler before
    anything is assigned. *)
Example textual_qos_rounded :
  qos (on_ready config (with_qos (VStr "9007199254740993")) (VArr []) initial)
  = VNum (Int 9007199254740992)
  /\ ready config (with_qos unprintable_record) (VArr [dev1_record]) initial
     = (initial, Thrown conversion_error).
Proof. split; vm_compute; reflexivity. Qed.

(** ** The authenticate hook *)

Lemma strict_eq_text_empty (v : value) :
  isEmpty v = false -> strict_eq_text v EmptyString = false.
Proof.
  destruct v as [| | b | n | s | l | ps]; simpl; try reflexivity.
  destruct s; [discriminate | reflexivity].
Qed.

(** X23. Where the hook is installed, a connection that brings no user name, or no
    password, is refused; the refusal is logged with the client's identity
    and is not reported through [handleException]. *)
Theorem missing_credentials_refused (options : Credentials.t)
    (client username password : value) :
  installed options = true ->
  isEmpty username = true \/ isEmpty password = true ->
  authenticate options client username password
  = (false,
     [ log ("MQTT Gateway - Authentication Failed on Client: "
              ++ (if negb (isEmpty client) then to_string (member client "id")
                  else "No Client ID")
              ++ ".") ]).
Proof.
  unfold installed. intros I H.
  apply andb_true_iff in I as [U P]. apply negb_true_iff in U, P.
  unfold authenticate, text.
  destruct H as [-> | ->]; simpl.
  - rewrite (strict_eq_text_empty _ U). reflexivity.
  - rewrite (strict_eq_text_empty _ P), andb_false_r. reflexivity.
Qed.

Lemma missing_credentials_refused_witness :
  authenticate credentials dev1_object (VStr "gateway") VUndefined
  = (false, [log "MQTT Gateway - Authentication Failed on Client: dev1."])
  /\ authenticate credentials VNull VUndefined (VStr "s3cret")
     = (false, [log "MQTT Gateway - Authentication Failed on Client: No Client ID."]).
Proof.
  split.
  - apply (missing_credentials_refused credentials dev1_object (VStr "gateway")
             VUndefined); [reflexivity | right; reflexivity].
  - apply (missing_credentials_refused credentials VNull VUndefined (VStr "s3cret"));
      [reflexivity | left; reflexivity].
Defined.

(** X24. The hook accepts exactly when the configured user and password are
    strings equal to the texts the connection brings, and then it makes no
    call; a configured value that is not a string lets nobody in. *)
Theorem authenticate_accepts_iff (options : Credentials.t)
    (client username password : value) :
  (fst (authenticate options client username password) = true
   <-> Credentials.user options = VStr (text username)
       /\ Credentials.password options = VStr (text password))
  /\ (fst (authenticate options client username password) = true ->
      authenticate options client username password = (true, [])).
Proof.
  assert (forall v s, strict_eq_text v s = true <-> v = VStr s) as E.
  { intros v s. destruct v; simpl; try (split; [discriminate | intros [=]]).
    rewrite String.eqb_eq. split; [intros ->; reflexivity | intros [= ->]; reflexivity]. }
  unfold authenticate.
  destruct (strict_eq_text (Credentials.user options) (text username)
            && strict_eq_text (Credentials.password options) (text password)) eqn:B.
  - apply andb_true_iff in B as [B1 B2]. apply E in B1, B2.
    split; [split; auto | reflexivity].
  - split; [| discriminate]. cbn [fst]. split; [discriminate |].
    intros [H1 H2]. apply E in H1, H2. rewrite H1, H2 in B. discriminate.
Qed.

(** ** Telemetry that is not a container *)

(** X21. A telemetry payload that is valid JSON but a bare number, boolean or
    [null] is refused like an empty document: it is reported through
    [handleException] and nothing is dispatched or acknowledged. *)
Theorem scalar_telemetry_refused (st : State) (srv : Server)
    (message : Publication.t) (client : Client) (data : value) :
  Publication.topic message = dataTopic srv ->
  JSON_parse (Publication.payload message) = Some data ->
  (exists n, data = VNum n) \/ (exists b, data = VBool b) \/ data = VNull ->
  on_published st srv message client
  = ([handleException (invalid_data_text (Publication.payload message))], Returned).
Proof.
  intros Ht Hp Hd. unfold on_published. rewrite Ht, String.eqb_refl, Hp.
  destruct Hd as [[n ->] | [[b ->] | ->]]; reflexivity.
Qed.

Lemma scalar_telemetry_refused_witness :
  on_published started broker (on_topic "reekoh/data" "21.5") dev1
  = ([handleException "Invalid data sent. Data must be a valid JSON String. Raw Message: 21.5"],
     Returned)
  /\ on_published started broker (on_topic "reekoh/data" "true") dev1
     = ([handleException "Invalid data sent. Data must be a valid JSON String. Raw Message: true"],
        Returned).
Proof.
  split.
  - apply (scalar_telemetry_refused started broker (on_topic "reekoh/data" "21.5")
             dev1 (VNum (Dec 215 (-1)))); [reflexivity | reflexivity |].
    left. eexists. reflexivity.
  - apply (scalar_telemetry_refused started broker (on_topic "reekoh/data" "true")
             dev1 (VBool true)); [reflexivity | reflexivity |].
    right. left. eexists. reflexivity.
Defined.
